(** * walk-the-dog: the web front end

    A verification development for the front end of walk-the-dog:

    - [Route]: the component [Index] of [app/routes/_index.tsx], with its
      run-once guard around the external [init()] of the WebAssembly core;
    - [ViteConfig]: the object handed to [defineConfig] in [vite.config.ts];
    - [Make]: the [Makefile], read and run by a model of GNU make.
*)

From Stdlib Require Import Ascii ZArith Lia Bool.
From stdpp Require Import gmap strings list fin_maps.

(* ===================================================================== *)
(** * The route component [Index] *)
(* ===================================================================== *)

Module Route.

(** ** Store

    A ref object [{ current: boolean }] made by [useRef] is a cell of the
    store, known by its identity.  Identities are handed out in increasing
    order and never used twice, as object identities are in JavaScript. *)

Abbreviation ref := nat.

(** How a call to the external [init()] ends. *)
Inductive completion := Returns | Throws.

Global Instance completion_eq_dec : EqDecision completion.
Proof. solve_decision. Defined.

(** [cells]: the [current] field of every live ref object; [next_ref]: the
    identity the next [useRef] of a mounting component gets; [init_log]: the
    calls to [init()] made so far, oldest first, each with the ref object of
    the effect that made it and the way the call ended. *)
Record store := {
  cells : gmap ref bool;
  next_ref : ref;
  init_log : list (ref * completion)
}.

Definition empty_store : store :=
  {| cells := ∅; next_ref := 0; init_log := [] |}.

(** ** Computations: state and exceptions *)

Inductive result (A : Type) :=
| Normal (a : A)
| Thrown.
Arguments Normal {A} a.
Arguments Thrown {A}.

Definition M (A : Type) := store -> result A * store.

Definition ret {A} (a : A) : M A := fun s => (Normal a, s).

Definition bind {A B} (m : M A) (k : A -> M B) : M B :=
  fun s => match m s with
           | (Normal a, s') => k a s'
           | (Thrown, s') => (Thrown, s')
           end.

Notation "'let!' x ':=' m 'in' k" := (bind m (fun x => k))
  (at level 10, x name, m at level 100, k at level 200).
Notation "'run!' m 'in' k" := (bind m (fun _ => k))
  (at level 10, m at level 100, k at level 200).

(** [r.current].  The framework runs the effects of mounted instances only,
    whose ref objects exist; reading any other identity is an error. *)
Definition get_current (r : ref) : M bool :=
  fun s => match cells s !! r with
           | Some b => (Normal b, s)
           | None => (Thrown, s)
           end.

(** [r.current = b] *)
Definition set_current (r : ref) (b : bool) : M unit :=
  fun s => (Normal tt,
            {| cells := <[r := b]> (cells s);
               next_ref := next_ref s;
               init_log := init_log s |}).

(** [{ current: b }], a new object *)
Definition alloc (b : bool) : M ref :=
  fun s => (Normal (next_ref s),
            {| cells := <[next_ref s := b]> (cells s);
               next_ref := S (next_ref s);
               init_log := init_log s |}).

(** ** What [Index] returns *)

Inductive attr_value :=
| StrAttr (s : string)
| NumAttr (n : Z).

#[local] Set Warnings "-register-all".
Inductive jsx :=
| Element (tag : string) (attrs : list (string * attr_value))
          (children : list jsx)
| TextNode (s : string).

(**
<<
    <div className="font-sans p-4">
      <h1 className="text-3xl">Welcome to Remix</h1>
      <canvas id="canvas" width={1200} height={600} />
    </div>
>> *)
Definition markup : jsx :=
  Element "div" [("className", StrAttr "font-sans p-4")]
    [ Element "h1" [("className", StrAttr "text-3xl")]
        [TextNode "Welcome to Remix"];
      Element "canvas"
        [("id", StrAttr "canvas"); ("width", NumAttr 1200);
         ("height", NumAttr 600)]
        [] ].

(** The elements of a tree, in document order. *)
Fixpoint elements (j : jsx) : list jsx :=
  match j with
  | Element _ _ children => j :: flat_map elements children
  | TextNode _ => []
  end.

Definition tag_of (j : jsx) : option string :=
  match j with
  | Element tag _ _ => Some tag
  | TextNode _ => None
  end.

Fixpoint assoc (name : string) (attrs : list (string * attr_value))
  : option attr_value :=
  match attrs with
  | [] => None
  | (n, v) :: rest => if String.eqb n name then Some v else assoc name rest
  end.

Definition attribute (name : string) (j : jsx) : option attr_value :=
  match j with
  | Element _ attrs _ => assoc name attrs
  | TextNode _ => None
  end.

(** The elements of [j] with tag [tag]. *)
Definition with_tag (tag : string) (j : jsx) : list jsx :=
  filter (fun e => tag_of e = Some tag) (elements j).

(** The elements of [j] that carry the attribute [name]. *)
Definition with_attribute (name : string) (j : jsx) : list jsx :=
  filter (fun e => is_Some (attribute name e)) (elements j).

Definition heading_tags : list string := ["h1"; "h2"; "h3"; "h4"; "h5"; "h6"].

Definition headings (j : jsx) : list jsx :=
  flat_map (fun tag => with_tag tag j) heading_tags.

Section Guard.

(** The WebAssembly core is not part of the front end: [init_behaviour k] is
    the way the call to [init()] that follows [k] earlier calls ends. *)
Variable init_behaviour : nat -> completion.

(** [init()], called from the effect of the component owning [caller]. *)
Definition init (caller : ref) : M unit :=
  fun s =>
    let c := init_behaviour (length (init_log s)) in
    let s' := {| cells := cells s;
                 next_ref := next_ref s;
                 init_log := init_log s ++ [(caller, c)] |} in
    match c with
    | Returns => (Normal tt, s')
    | Throws => (Thrown, s')
    end.

(** [useRef<boolean>(initial)]: a new ref object on the first render of a
    component instance ([slot = None]), the same object on every later
    render. *)
Definition useRef (initial : bool) (slot : option ref) : M ref :=
  match slot with
  | None => alloc initial
  | Some r => ret r
  end.

(** The callback handed to [useEffect]:
<<
    () => {
      if (!initialized.current) {
        init();
        initialized.current = true;
      }
    }
>> *)
Definition effect (initialized : ref) : M unit :=
  let! current := get_current initialized in
  if negb current then
    run! init initialized in
    set_current initialized true
  else
    ret tt.

(** [useEffect(callback, dependencies)]: the callback is registered with
    the framework, which invokes it after the component has rendered. *)
Record effect_hook := {
  callback : M unit;
  dependencies : list ref
}.

Definition useEffect (callback : M unit) (dependencies : list ref)
  : effect_hook :=
  {| callback := callback; dependencies := dependencies |}.

(** One call of the component function: the ref object of its [useRef] slot,
    what it handed to [useEffect], and the element returned. *)
Record rendering := {
  hook_ref : ref;
  hook_effect : effect_hook;
  output : jsx
}.

(**
<<
    export default function Index() {
      const initialized = useRef<boolean>(false);
      useEffect(() => { ... }, [initialized]);
      return ( ... );
    }
>>
    [slot] is the hook state the framework keeps for the instance: [None]
    when the instance renders for the first time. *)
Definition Index (slot : option ref) : M rendering :=
  let! initialized := useRef false slot in
  ret {| hook_ref := initialized;
         hook_effect := useEffect (effect initialized) [initialized];
         output := markup |}.

(** ** Lifecycle

    What the framework does with component instances of the route.  An
    instance is known by the ref object of its [useRef] slot.  The framework
    is free to invoke the effect of a mounted instance any number of times
    (after mount, twice under development double invocation, after a
    re-render); nothing here restricts when. *)
Inductive event :=
| Mount
| Render (i : ref)
| Invoke (i : ref)
| Unmount (i : ref).

Global Instance event_eq_dec : EqDecision event.
Proof. solve_decision. Defined.

Definition mounted (i : ref) (s : store) : bool :=
  bool_decide (is_Some (cells s !! i)).

Definition discard (i : ref) (s : store) : store :=
  {| cells := delete i (cells s);
     next_ref := next_ref s;
     init_log := init_log s |}.

(** An exception out of the effect goes to the framework; the store keeps
    what the callback did before it was thrown. *)
Definition step (s : store) (e : event) : store :=
  match e with
  | Mount => snd (Index None s)
  | Render i => if mounted i s then snd (Index (Some i) s) else s
  | Invoke i =>
      if mounted i s then
        match Index (Some i) s with
        | (Normal view, s') => snd (callback (hook_effect view) s')
        | (Thrown, s') => s'
        end
      else s
  | Unmount i => discard i s
  end.

Definition run (tr : list event) (s : store) : store := foldl step s tr.

(** Lifecycle invocations of the effect of instance [i] in a trace. *)
Definition invocations (i : ref) (tr : list event) : nat :=
  length (filter (fun e => e = Invoke i) tr).

(** Calls to [init()] made by the effect of instance [i] that ended as [c]. *)
Definition calls_ending (c : completion) (i : ref) (s : store) : nat :=
  length (filter (fun e => e = (i, c)) (init_log s)).

(** Calls to [init()] made by the effect of instance [i]. *)
Definition calls_of (i : ref) (s : store) : nat :=
  calls_ending Returns i s + calls_ending Throws i s.

End Guard.

(** ** Invariants of the lifecycle *)

(** Every ref object in use was handed out by [alloc]. *)
Definition well_formed (s : store) : Prop :=
  (forall i, is_Some (cells s !! i) -> i < next_ref s) /\
  (forall i c, (i, c) ∈ init_log s -> i < next_ref s).

(** The guard of a mounted instance [i] whose effect was invoked [n] times:
    either the flag is unset and every invocation so far ended in a call to
    [init()] that raised, or the flag is set, one call returned, and the
    calls before it raised. *)
Definition guard_state (i : ref) (n : nat) (s : store) : Prop :=
  (cells s !! i = Some false /\
   calls_ending Returns i s = 0 /\ calls_ending Throws i s = n) \/
  (cells s !! i = Some true /\
   calls_ending Returns i s = 1 /\ calls_ending Throws i s + 1 <= n).

(** ** Two behaviours of [init()] *)

(** [init()] raises the first time it is called and returns afterwards. *)
Definition raises_once (k : nat) : completion :=
  match k with
  | 0 => Throws
  | S _ => Returns
  end.

Definition always_returns (k : nat) : completion := Returns.

(** ** More about traces *)

Definition is_render (e : event) : bool :=
  match e with
  | Render _ => true
  | _ => false
  end.

(** The trace without its re-renders. *)
Definition without_renders (tr : list event) : list event :=
  filter (fun e => is_render e = false) tr.

(** Instances mounted in a trace. *)
Definition mounts (tr : list event) : nat :=
  length (filter (fun e => e = Mount) tr).

(** How the calls to [init()] made by instance [i] ended, oldest first. *)
Definition outcomes_of (i : ref) (s : store) : list completion :=
  snd <$> filter (fun e => fst e = i) (init_log s).

(** The instances whose calls to [init()] returned, one entry for each
    such call. *)
Definition returned (s : store) : list ref :=
  fst <$> filter (fun e => snd e = Returns) (init_log s).

(** The calls of an instance are calls that raised, followed by one call
    that returned when the flag is set. *)
Definition log_shape (i : ref) (s : store) : Prop :=
  exists k,
    (outcomes_of i s = replicate k Throws /\ cells s !! i <> Some true) \/
    (outcomes_of i s = replicate k Throws ++ [Returns] /\
     cells s !! i <> Some false).

End Route.

(* ===================================================================== *)
(** * The bundler configuration [vite.config.ts] *)
(* ===================================================================== *)

Module ViteConfig.

(** An [import] line: the local name, the name exported by the module
    ([default] for a default import) and the module. *)
Record import_line := {
  local_name : string;
  exported_name : string;
  from_module : string
}.

(**
<<
    import { vitePlugin as remix } from "@remix-run/dev";
    import { defineConfig } from "vite";
    import tsconfigPaths from "vite-tsconfig-paths";
    import wasm from "vite-plugin-wasm";
>> *)
Definition imports : list import_line :=
  [ {| local_name := "remix"; exported_name := "vitePlugin";
       from_module := "@remix-run/dev" |};
    {| local_name := "defineConfig"; exported_name := "defineConfig";
       from_module := "vite" |};
    {| local_name := "tsconfigPaths"; exported_name := "default";
       from_module := "vite-tsconfig-paths" |};
    {| local_name := "wasm"; exported_name := "default";
       from_module := "vite-plugin-wasm" |} ].

(** Object literals handed to a plugin. *)
#[local] Set Warnings "-register-all".
Inductive literal :=
| BoolLit (b : bool)
| ObjectLit (fields : list (string * literal)).

(** An entry of [plugins]: a call of an imported function. *)
Record plugin_call := {
  callee : string;
  arguments : list literal
}.

Record fs_options := { allow : list string }.
Record server_options := { fs : fs_options }.
Record user_config := {
  plugins : list plugin_call;
  server : server_options
}.

(** vite's [defineConfig] returns the object it is given. *)
Definition defineConfig (c : user_config) : user_config := c.

(**
<<
    export default defineConfig({
      plugins: [
        wasm(),
        remix({ future: { v3_fetcherPersist: true,
                          v3_relativeSplatPath: true,
                          v3_throwAbortReason: true } }),
        tsconfigPaths(),
      ],
      server: { fs: { allow: [".", "../core"] } },
    });
>> *)
Definition config : user_config :=
  defineConfig
    {| plugins :=
         [ {| callee := "wasm"; arguments := [] |};
           {| callee := "remix";
              arguments :=
                [ObjectLit
                   [("future",
                     ObjectLit [("v3_fetcherPersist", BoolLit true);
                                ("v3_relativeSplatPath", BoolLit true);
                                ("v3_throwAbortReason", BoolLit true)])]] |};
           {| callee := "tsconfigPaths"; arguments := [] |} ];
       server := {| fs := {| allow := ["."; "../core"] |} |} |}.

(** The module and export a local name stands for. *)
Definition resolve (name : string) : option (string * string) :=
  (fun i => (from_module i, exported_name i)) <$>
    List.find (fun i => String.eqb (local_name i) name) imports.

(** What the three packages are. *)
Inductive plugin_kind :=
| WasmSupport          (* vite-plugin-wasm: loading of WebAssembly modules *)
| FrameworkCompiler    (* @remix-run/dev vitePlugin: the Remix compiler *)
| PathAliasResolver.   (* vite-tsconfig-paths: tsconfig path aliases *)

Definition kind_of (origin : string * string) : option plugin_kind :=
  let (module, export) := origin in
  if String.eqb module "vite-plugin-wasm" && String.eqb export "default"
  then Some WasmSupport
  else if String.eqb module "@remix-run/dev" && String.eqb export "vitePlugin"
  then Some FrameworkCompiler
  else if String.eqb module "vite-tsconfig-paths" && String.eqb export "default"
  then Some PathAliasResolver
  else None.

Definition plugin_kinds (c : user_config) : list (option plugin_kind) :=
  (fun p => resolve (callee p) ≫= kind_of) <$> plugins c.

End ViteConfig.

(* ===================================================================== *)
(** * The Makefile *)
(* ===================================================================== *)

(** The Makefile is kept as the text it is, and read and run by a model of
    GNU make: reading of definitions, conditionals, [include] and rules;
    expansion of references and of the functions [eval], [shell] and
    [wildcard]; choice of the goal; running of recipes through a shell.
    The shell is a parameter of make.  A model of the shell covers the
    pipeline of the [help] recipe: single quotes, [|], and the programs
    [grep -E], [sed] and [awk] as far as the recipe uses them.  Of a command
    the model keeps the exit status and the lines written to standard
    output; standard error and the messages of make itself are left out. *)

Module Make.

(** ** Text *)

Definition chr (code : nat) : string := String (ascii_of_nat code) EmptyString.
Definition tab : string := chr 9.
Definition esc : string := chr 27.
Definition dq : string := chr 34.

Fixpoint starts_with (p s : string) : bool :=
  match p, s with
  | EmptyString, _ => true
  | String a p', String b s' => Ascii.eqb a b && starts_with p' s'
  | String _ _, EmptyString => false
  end.

(** [p] occurs in [s]. *)
Fixpoint contains (p s : string) : bool :=
  starts_with p s ||
  match s with
  | String _ r => contains p r
  | EmptyString => false
  end.

Fixpoint drop_chars (n : nat) (s : string) : string :=
  match n, s with
  | S k, String _ r => drop_chars k r
  | _, _ => s
  end.

Definition strip_prefix (p s : string) : option string :=
  if starts_with p s then Some (drop_chars (String.length p) s) else None.

Definition is_blank (a : ascii) : bool :=
  Ascii.eqb a " " || Ascii.eqb a (ascii_of_nat 9).

Fixpoint ltrim (s : string) : string :=
  match s with
  | String a r => if is_blank a then ltrim r else s
  | EmptyString => s
  end.

(** Without the white space in front: space, tab, line feed, vertical tab,
    form feed and carriage return. *)
Fixpoint skip_space (s : string) : string :=
  match s with
  | String a r => if Ascii.is_space a then skip_space r else s
  | EmptyString => s
  end.

Fixpoint all_chars (p : ascii -> bool) (s : string) : bool :=
  match s with
  | String a r => p a && all_chars p r
  | EmptyString => true
  end.

Definition rtrim (s : string) : string := String.rev (ltrim (String.rev s)).
Definition trim (s : string) : string := rtrim (ltrim s).

(** The text before the first [c], and the text after it. *)
Fixpoint break_at (c : ascii) (s : string) : option (string * string) :=
  match s with
  | EmptyString => None
  | String a r =>
      if Ascii.eqb a c then Some (EmptyString, r)
      else prod_map (String a) id <$> break_at c r
  end.

(** Where make is while it looks for the [#] that starts a comment:
    outside references, right after a [$], or inside a reference [$(...)]
    or [${...}] at some depth. *)
Inductive comment_state :=
| Outside
| Dollar
| Inside (o c : ascii) (depth : nat).

(** The backslashes at the front of a text. *)
Fixpoint backslashes (s : string) : nat :=
  match s with
  | String a r => if Ascii.eqb a "\" then S (backslashes r) else 0
  | EmptyString => 0
  end.

(** The line without its comment, as GNU make 4.3 reads it.  [before] is
    the text already read, its last character first.  A [#] inside a
    reference or right after a [$] starts no comment.  Of the [k]
    backslashes in front of a [#] half are kept; when [k] is odd the [#] is
    a character of the line, else it starts the comment. *)
Fixpoint uncomment (st : comment_state) (before s : string) : string :=
  match s with
  | EmptyString => String.rev before
  | String a r =>
      match st with
      | Dollar =>
          if Ascii.eqb a "(" then
            uncomment (Inside "(" ")" 1) (String a before) r
          else if Ascii.eqb a "{" then
            uncomment (Inside "{" "}" 1) (String a before) r
          else uncomment Outside (String a before) r
      | Inside o c depth =>
          if Ascii.eqb a o then
            uncomment (Inside o c (S depth)) (String a before) r
          else if Ascii.eqb a c then
            match depth with
            | S (S d) => uncomment (Inside o c (S d)) (String a before) r
            | _ => uncomment Outside (String a before) r
            end
          else uncomment (Inside o c depth) (String a before) r
      | Outside =>
          if Ascii.eqb a "$" then uncomment Dollar (String a before) r
          else if Ascii.eqb a "#" then
            let k := backslashes before in
            let kept := drop_chars (k - Nat.div2 k) before in
            if Nat.eqb k 0 then String.rev before
            else if Nat.even k then String.rev kept
            else uncomment Outside (String a kept) r
          else uncomment Outside (String a before) r
      end
  end.

Definition strip_comment (s : string) : string :=
  uncomment Outside EmptyString s.

(** The value of a definition whose text after the [=] is [written]: the
    comment goes, then the white space in front; white space at the end
    stays. *)
Definition value_text (written : string) : string :=
  skip_space (strip_comment written).

Definition unwords (ws : list string) : string :=
  match ws with
  | [] => EmptyString
  | w :: rest => foldl (fun acc x => acc +:+ " " +:+ x) w rest
  end.



(** What a command run by the shell gives back: its exit status and the
    lines it wrote to standard output, each ended by a line feed. *)
Record sh_result := { status : nat; stdout : list string }.

(** The characters of the texts grep is modelled on: the printing
    characters of ASCII, the space and the tab.  A file with a NUL byte is
    a binary file to grep, and what bytes above 127 are depends on the
    locale; on such input the model gives no result. *)
Definition text_char (c : ascii) : bool :=
  let n := nat_of_ascii c in
  Nat.eqb n 9 || (Nat.leb 32 n && Nat.leb n 126).

Definition text_line (l : string) : bool := all_chars text_char l.

(** ** Regular expressions of grep and sed *)

Inductive atom :=
| Lit (c : ascii)                               (* the character itself *)
| AnyChar                                       (* [.] *)
| Space                                         (* [\s] *)
| Bracket (negated : bool) (ranges : list (ascii * ascii)).

Inductive piece :=
| One (a : atom)
| Many (a : atom)                               (* [a*] *)
| AtEnd.                                        (* [$] *)

Record regex := { anchored : bool; pieces : list piece }.

Definition in_range (c : ascii) (r : ascii * ascii) : bool :=
  Nat.leb (nat_of_ascii (fst r)) (nat_of_ascii c) &&
  Nat.leb (nat_of_ascii c) (nat_of_ascii (snd r)).

Definition accepts (a : atom) (c : ascii) : bool :=
  match a with
  | Lit c' => Ascii.eqb c c'
  | AnyChar => true
  | Space => Ascii.is_space c
  | Bracket negated ranges => xorb negated (existsb (in_range c) ranges)
  end.

(** The length of the match of [ps] at the start of the text, stars taking
    as much as they can. *)
Fixpoint match_len (ps : list piece) : string -> option nat :=
  match ps with
  | [] => fun _ => Some 0
  | AtEnd :: ps' =>
      fun s => match s with
               | EmptyString => match_len ps' EmptyString
               | String _ _ => None
               end
  | One a :: ps' =>
      fun s => match s with
               | String c r =>
                   if accepts a c then S <$> match_len ps' r else None
               | EmptyString => None
               end
  | Many a :: ps' =>
      fix many (s : string) : option nat :=
        match s with
        | String c r =>
            if accepts a c then
              match many r with
              | Some n => Some (S n)
              | None => match_len ps' s
              end
            else match_len ps' s
        | EmptyString => match_len ps' s
        end
  end.

Fixpoint search (ps : list piece) (s : string) : bool :=
  bool_decide (is_Some (match_len ps s)) ||
  match s with
  | String _ r => search ps r
  | EmptyString => false
  end.

(** Does the line have a match? *)
Definition selects (re : regex) (line : string) : bool :=
  if anchored re then bool_decide (is_Some (match_len (pieces re) line))
  else search (pieces re) line.

(** The items of a bracket expression, after the opening bracket. *)
Fixpoint parse_bracket (s : string) (items : list (ascii * ascii))
  : option (list (ascii * ascii) * string) :=
  match s with
  | EmptyString => None
  | String "]" r => Some (items, r)
  | String a (String "-" (String "]" r)) =>
      Some (items ++ [(a, a); ("-", "-")]%char, r)
  | String a (String "-" (String b r)) => parse_bracket r (items ++ [(a, b)])
  | String a r => parse_bracket r (items ++ [(a, a)])
  end.

Definition is_alnum (c : ascii) : bool :=
  in_range c ("a", "z")%char || in_range c ("A", "Z")%char ||
  in_range c ("0", "9")%char.

Definition parse_atom (s : string) : option (atom * string) :=
  match s with
  | EmptyString => None
  | String "[" (String "^" r) =>
      prod_map (Bracket true) id <$> parse_bracket r []
  | String "[" r => prod_map (Bracket false) id <$> parse_bracket r []
  | String "." r => Some (AnyChar, r)
  | String "\" (String "s" r) => Some (Space, r)
  | String "\" (String c r) => if is_alnum c then None else Some (Lit c, r)
  | String "\" EmptyString => None
  | String c r =>
      if bool_decide (c ∈ ["*"; "+"; "?"; "{"; "}"; "("; ")"; "|"; "^"; "$"]%char)
      then None else Some (Lit c, r)
  end.

Fixpoint parse_pieces (fuel : nat) (s : string) : option (list piece) :=
  match fuel with
  | 0 => None
  | S fuel =>
      match s with
      | EmptyString => Some []
      | String "$" EmptyString => Some [AtEnd]
      | _ =>
          '(a, r) ← parse_atom s;
          match r with
          | String "*" r' => cons (Many a) <$> parse_pieces fuel r'
          | _ => cons (One a) <$> parse_pieces fuel r
          end
      end
  end.

(** The expressions of the model: an optional [^], then characters, [.],
    [\s], bracket expressions and escaped punctuation, each optionally
    starred, then an optional [$]. *)
Definition parse_regex (s : string) : option regex :=
  match s with
  | String "^" r =>
      (fun ps => {| anchored := true; pieces := ps |}) <$>
        parse_pieces (S (String.length r)) r
  | _ =>
      (fun ps => {| anchored := false; pieces := ps |}) <$>
        parse_pieces (S (String.length s)) s
  end.

(** ** grep -E *)

Section Tools.

(** The files of the working directory and the programs that are not
    modelled ([git], [wasm-pack], ...). *)
Variable files : string -> option (list string).
Variable programs : list string -> list string -> sh_result.

(** The lines of the operands that can be read, each with its file name in
    front when there are several operands, and whether some operand could
    not be read. *)
Fixpoint grep_input (several : bool) (operands : list string)
  : list (string * string) * bool :=
  match operands with
  | [] => ([], false)
  | f :: rest =>
      let '(more, failed) := grep_input several rest in
      match files f with
      | Some ls =>
          (((fun l => (if several then f +:+ ":" else EmptyString, l)) <$> ls)
             ++ more, failed)
      | None => (more, true)
      end
  end.

(** [grep -E pattern operands] in the C locale, for the patterns the model
    reads, operands that are names of files (a word that starts with [-] is
    an option, or standard input) and input that is text.  The lines
    selected in the files that can be read are written also when another
    file cannot be read; the status is 2 then, else 1 when no line is
    selected and 0 when one is. *)
Definition grep_E (pattern : string) (operands : list string)
    (stdin : list string) : option sh_result :=
  if existsb (starts_with "-") (pattern :: operands) then None
  else
    re ← parse_regex pattern;
    let '(ls, failed) :=
      match operands with
      | [] => ((fun l => (EmptyString, l)) <$> stdin, false)
      | [_] => grep_input false operands
      | _ => grep_input true operands
      end in
    if forallb (fun l => text_line (snd l)) ls then
      let hits := filter (fun l => selects re (snd l) = true) ls in
      Some {| status := if failed then 2
                        else if bool_decide (hits = []) then 1 else 0;
              stdout := (fun l => fst l +:+ snd l) <$> hits |}
    else None.

(** ** sed *)

(** Replacing the matches of [ps] by [by_text], all of them or the first
    one; an empty match replaces nothing. *)
Fixpoint substitute (ps : list piece) (by_text : string) (all : bool)
    (skip : nat) (s : string) : string :=
  match s with
  | EmptyString => EmptyString
  | String c r =>
      match skip with
      | S k => substitute ps by_text all k r
      | 0 =>
          match match_len ps s with
          | Some (S n) =>
              by_text +:+
              (if all then substitute ps by_text all n r else drop_chars n r)
          | _ => String c (substitute ps by_text all 0 r)
          end
      end
  end.

Definition substitute_line (re : regex) (by_text : string) (all : bool)
    (line : string) : string :=
  if anchored re then
    match match_len (pieces re) line with
    | Some (S n) => by_text +:+ drop_chars (S n) line
    | _ => line
    end
  else substitute (pieces re) by_text all 0 line.

(** The text up to the next [/] that is not escaped, and the text after
    it. *)
Fixpoint until_slash (s : string) : option (string * string) :=
  match s with
  | EmptyString => None
  | String "/" r => Some (EmptyString, r)
  | String "\" (String c r) =>
      prod_map (fun t => String "\" (String c t)) id <$> until_slash r
  | String c r => prod_map (String c) id <$> until_slash r
  end.

(** [s/regex/text/] and [s/regex/text/g], the text without [&] and [\]. *)
Definition parse_sed (script : string) : option (regex * string * bool) :=
  body ← strip_prefix "s/" script;
  '(re_text, rest) ← until_slash body;
  '(by_text, flags) ← until_slash rest;
  re ← parse_regex re_text;
  if bool_decide (is_Some (break_at "&" by_text))
     || bool_decide (is_Some (break_at "\" by_text))
  then None
  else if String.eqb flags "g" then Some (re, by_text, true)
  else if String.eqb flags EmptyString then Some (re, by_text, false)
  else None.

Definition sed (script : string) (stdin : list string) : sh_result :=
  match parse_sed script with
  | None => {| status := 1; stdout := [] |}
  | Some (re, by_text, all) =>
      {| status := 0; stdout := substitute_line re by_text all <$> stdin |}
  end.


(** ** awk *)

(** The programs of the model:
    [BEGIN {FS = "text"}; {printf "format", $i, $j, ...}]. *)
Record awk_program := {
  separator : string;
  format : string;
  arguments : list nat
}.

Definition expect (p s : string) : option string := strip_prefix p (ltrim s).

Definition octal (c : ascii) : option nat :=
  match Ascii.is_nat c with
  | Some d => if Nat.ltb d 8 then Some d else None
  | None => None
  end.

(** A string constant after its opening quote: the text it stands for, and
    what follows the closing quote. *)
Fixpoint awk_string (s : string) : option (string * string) :=
  match s with
  | EmptyString => None
  | String "\" (String c r) =>
      match octal c, r with
      | Some d1, String c2 (String c3 r') =>
          d2 ← octal c2; d3 ← octal c3;
          prod_map (String (ascii_of_nat (64 * d1 + 8 * d2 + d3))) id
            <$> awk_string r'
      | Some _, _ => None
      | None, _ =>
          if Ascii.eqb c "n" then
            prod_map (String (ascii_of_nat 10)) id <$> awk_string r
          else if Ascii.eqb c "t" then
            prod_map (String (ascii_of_nat 9)) id <$> awk_string r
          else if is_alnum c then None
          else prod_map (String c) id <$> awk_string r
      end
  | String c r =>
      if Ascii.eqb c (ascii_of_nat 34) then Some (EmptyString, r)
      else prod_map (String c) id <$> awk_string r
  end.

Fixpoint digits (s : string) (n : option nat) : option nat * string :=
  match s with
  | String c r =>
      match Ascii.is_nat c with
      | Some d => digits r (Some (10 * default 0 n + d))
      | None => (n, s)
      end
  | EmptyString => (n, s)
  end.

(** [, $i, $j ... }] *)
Fixpoint awk_arguments (fuel : nat) (s : string) : option (list nat) :=
  match fuel with
  | 0 => None
  | S fuel =>
      match expect "," s with
      | Some r =>
          r ← expect "$" r;
          match digits r None with
          | (Some n, r) => cons n <$> awk_arguments fuel r
          | (None, _) => None
          end
      | None =>
          r ← expect "}" s;
          if String.eqb (trim r) EmptyString then Some [] else None
      end
  end.

Definition parse_awk (program : string) : option awk_program :=
  r ← expect "BEGIN" program;
  r ← expect "{" r;
  r ← expect "FS" r;
  r ← expect "=" r;
  r ← expect dq r;
  '(fs, r) ← awk_string r;
  r ← expect "}" r;
  r ← expect ";" r;
  r ← expect "{" r;
  r ← expect "printf" r;
  r ← expect dq r;
  '(fmt, r) ← awk_string r;
  args ← awk_arguments (S (String.length r)) r;
  Some {| separator := fs; format := fmt; arguments := args |}.

(** Splitting at every occurrence of [sep], from the left. *)
Fixpoint split_on (sep : string) (skip : nat) (field : string) (s : string)
  : list string :=
  match s with
  | EmptyString => [String.rev field]
  | String c r =>
      match skip with
      | S k => split_on sep k field r
      | 0 =>
          if starts_with sep s then
            String.rev field :: split_on sep (String.length sep - 1) EmptyString r
          else split_on sep 0 (String c field) r
      end
  end.

Definition is_meta (c : ascii) : bool :=
  bool_decide (c ∈ ["\"; "^"; "$"; "."; "["; "]"; "|"; "("; ")"; "*"; "+";
                    "?"; "{"; "}"]%char).

Fixpoint has_meta (s : string) : bool :=
  match s with
  | String c r => is_meta c || has_meta r
  | EmptyString => false
  end.

(** The fields of a record.  A single space separates at runs of white
    space; any other separator of the model is text without the special
    characters of regular expressions, and separates where it occurs. *)
Definition fields (sep : string) (line : string) : option (list string) :=
  if String.eqb sep " " then Some (String.words line)
  else if String.eqb sep EmptyString || has_meta sep then None
  else if String.eqb line EmptyString then Some []
  else Some (split_on sep 0 EmptyString line).

Fixpoint spaces (n : nat) : string :=
  match n with
  | 0 => EmptyString
  | S k => String " " (spaces k)
  end.

Definition pad (to_left : bool) (width : nat) (s : string) : string :=
  let fill := spaces (width - String.length s) in
  if to_left then s +:+ fill else fill +:+ s.

(** [printf]: [%s], [%Ns], [%-Ns] and [%%]. *)
Fixpoint printf (fuel : nat) (fmt : string) (args : list string)
  : option string :=
  match fuel with
  | 0 => None
  | S fuel =>
      match fmt with
      | EmptyString => Some EmptyString
      | String "%" (String "%" r) => String "%" <$> printf fuel r args
      | String "%" r =>
          let '(to_left, r) := match r with
                            | String "-" r' => (true, r')
                            | _ => (false, r)
                            end in
          let '(width, r) := digits r None in
          match r, args with
          | String "s" r, a :: args =>
              String.app (pad to_left (default 0 width) a) <$> printf fuel r args
          | _, _ => None
          end
      | String c r => String c <$> printf fuel r args
      end
  end.

(** The lines of a text; a last line without line end counts. *)
Fixpoint lines_of (line : string) (s : string) : list string :=
  match s with
  | EmptyString =>
      if String.eqb line EmptyString then [] else [String.rev line]
  | String c r =>
      if Ascii.eqb c (ascii_of_nat 10)
      then String.rev line :: lines_of EmptyString r
      else lines_of (String c line) r
  end.

Definition awk_record (p : awk_program) (line : string) : option string :=
  fs ← fields (separator p) line;
  printf (S (String.length (format p))) (format p)
    ((fun n => match n with
               | 0 => line
               | S k => default EmptyString (fs !! k)
               end) <$> arguments p).

Fixpoint awk_records (p : awk_program) (input : list string) : option string :=
  match input with
  | [] => Some EmptyString
  | l :: rest =>
      t ← awk_record p l; more ← awk_records p rest; Some (t +:+ more)
  end.

Definition awk (program : string) (stdin : list string) : sh_result :=
  match parse_awk program ≫= fun p => awk_records p stdin with
  | Some out => {| status := 0; stdout := lines_of EmptyString out |}
  | None => {| status := 2; stdout := [] |}
  end.

(** ** The shell *)

(** The words of the commands of a pipeline.  Text between single quotes
    is taken as it is; outside quotes blanks separate words and [|]
    separates commands.  A command without a word, and a first word that
    holds [=], are not run by the model. *)
Fixpoint lex (s : string) (quoted : bool) (word : option string)
    (argv : list string) : list (list string) :=
  let close w := argv ++ option_list (String.rev <$> w) in
  match s with
  | EmptyString => [close word]
  | String c r =>
      if quoted then
        if Ascii.eqb c "'" then lex r false word argv
        else lex r true (Some (String c (default EmptyString word))) argv
      else if Ascii.eqb c "'" then
        lex r true (Some (default EmptyString word)) argv
      else if is_blank c then lex r false None (close word)
      else if Ascii.eqb c "|" then close word :: lex r false None []
      else lex r false (Some (String c (default EmptyString word))) argv
  end.

Definition run_command (argv : list string) (stdin : list string)
  : option sh_result :=
  match argv with
  | [] => None
  | name :: args =>
      if contains "=" name then None
      else if String.eqb name "grep" then
        match args with
        | flag :: pattern :: operands =>
            if String.eqb flag "-E" then grep_E pattern operands stdin
            else Some (programs argv stdin)
        | _ => Some (programs argv stdin)
        end
      else if String.eqb name "sed" then
        match args with
        | [script] => Some (sed script stdin)
        | _ => Some (programs argv stdin)
        end
      else if String.eqb name "awk" then
        match args with
        | [program] => Some (awk program stdin)
        | _ => Some (programs argv stdin)
        end
      else Some (programs argv stdin)
  end.

(** A pipeline: each command reads what the one before wrote; the status
    is that of the last command.  [None] when a command is run on input the
    model of its program does not cover. *)
Fixpoint run_pipeline (commands : list (list string)) (stdin : list string)
  : option sh_result :=
  match commands with
  | [] => Some {| status := 0; stdout := stdin |}
  | [c] => run_command c stdin
  | c :: rest => r ← run_command c stdin; run_pipeline rest (stdout r)
  end.

(** The command lines the model reads: simple commands of plain words and
    of text between single quotes, joined by [|].  Outside quotes every
    other character means something to the shell. *)
Definition plain_shell_char (c : ascii) : bool :=
  is_alnum c ||
  bool_decide (c ∈ [" "; "009"; "|"; "-"; "_"; "."; "/"; "="; ":"; ",";
                    "+"; "@"; "%"]%char).

Fixpoint simple_pipeline (s : string) (quoted : bool) : bool :=
  match s with
  | EmptyString => negb quoted
  | String c r =>
      if quoted then
        if Ascii.eqb c "'" then simple_pipeline r false
        else negb (Ascii.eqb c (ascii_of_nat 10)) && simple_pipeline r true
      else if Ascii.eqb c "'" then simple_pipeline r true
      else plain_shell_char c && simple_pipeline r false
  end.

(** [sh -c command], for such command lines. *)
Definition posix_sh (command : string) : option sh_result :=
  if simple_pipeline command false
  then run_pipeline (lex command false None []) []
  else None.

End Tools.
(** ** The Makefile *)

Definition text : list string :=
  [ ".DEFAULT_GOAL := help";
    ".PHONY: help";
    EmptyString;
    "COMMAND_LIST := ${MAKEFILE_LIST}";
    EmptyString;
    "# if .env file exists, including secret infomations";
    "ifneq (" +:+ dq +:+ "$(wildcard .env)" +:+ dq +:+ "," +:+ dq +:+ dq +:+ ")";
    "include .env";
    "endif";
    EmptyString;
    "help:";
    tab +:+ "@grep -E '^[a-zA-Z].*:\s##\s.*$$' ${COMMAND_LIST} |sed 's/\\//g' |awk 'BEGIN {FS = "
        +:+ dq +:+ ": ## " +:+ dq +:+ "}; {printf "
        +:+ dq +:+ "\033[36m%-30s\033[0m %s\n" +:+ dq +:+ ", $$1, $$2}'";
    EmptyString;
    "get_git_tag:";
    tab +:+ "$(eval git_ver = $(shell git describe --tags --dirty --abbrev=0))";
    tab +:+ "$(eval git_ver_verbose = $(shell git describe --tags --dirty))";
    EmptyString;
    ".PHONY: build-core";
    "build-core: ## build core";
    tab +:+ "@wasm-pack build core --target web" ].

(** The name under which make finds the file. *)
Definition makefile_name : string := "Makefile".

(** ** Variables *)

Inductive flavor := Simple | Recursive.

(** Definitions, the newest first. *)
Definition variables := list (string * (flavor * string)).

Fixpoint lookup_var (name : string) (vs : variables)
  : option (flavor * string) :=
  match vs with
  | [] => None
  | (n, v) :: rest => if String.eqb n name then Some v else lookup_var name rest
  end.

Definition define (name : string) (f : flavor) (value : string)
    (vs : variables) : variables :=
  (name, (f, value)) :: vs.

(** The text from an opening [o] (already read) to its closing [c], and the
    text after it. *)
Fixpoint until_close (o c : ascii) (depth : nat) (s : string)
  : option (string * string) :=
  match s with
  | EmptyString => None
  | String a r =>
      if Ascii.eqb a c then
        match depth with
        | 0 => Some (EmptyString, r)
        | S d => prod_map (String a) id <$> until_close o c d r
        end
      else if Ascii.eqb a o then
        prod_map (String a) id <$> until_close o c (S depth) r
      else
        prod_map (String a) id <$> until_close o c depth r
  end.

(** [name text] in [$(name text)], for the functions the model knows. *)
Definition call_of (body : string) : option (string * string) :=
  match break_at " " body with
  | Some (name, arg) =>
      if bool_decide (name ∈ ["eval"; "shell"; "wildcard"])
      then Some (name, ltrim arg) else None
  | None => None
  end.

Definition strip_suffix (p s : string) : option string :=
  String.rev <$> strip_prefix (String.rev p) (String.rev s).

(** [name = value] and [name := value]: the name, the flavor and the text
    of the value, without its comment and without the white space in front
    of it.  [None] for a line that is no definition. *)
Definition parse_assignment (line : string)
  : option (string * flavor * string) :=
  match break_at "=" line with
  | None => None
  | Some (lhs, rhs) =>
      let '(f, lhs) := match strip_suffix ":" lhs with
                       | Some l => (Simple, l)
                       | None => (Recursive, lhs)
                       end in
      match String.words lhs with
      | [name] =>
          if bool_decide (is_Some (break_at ":" name))
             || bool_decide (is_Some (break_at "#" lhs))
             || bool_decide (is_Some (strip_suffix "?" name))
             || bool_decide (is_Some (strip_suffix "+" name))
             || bool_decide (is_Some (strip_suffix "!" name))
          then None
          else Some (name, f, value_text rhs)
      | _ => None
      end
  end.

(** [v +:+ t], written so that it computes when [t] is known to be
    empty. *)
Definition join (v t : string) : string :=
  match t with
  | EmptyString => v
  | String _ _ => v +:+ t
  end.

(** ** Names in [.env]

    The model reads a [.env] that is a list of definitions [NAME=value].
    To make a variable is more than a name when make itself or the
    Makefile reads it: [MAKEFLAGS], [.RECIPEPREFIX], [SHELL] and the like
    change how the Makefile is read and how recipes are run.  The model
    follows none of that; it reads the definitions of ordinary names, and
    of the two names the Makefile itself sets. *)

Definition name_char (c : ascii) : bool := is_alnum c || Ascii.eqb c "_".

(** Names of letters, digits and underscores to which make gives a meaning
    of its own, and the name the Makefile uses. *)
Definition reserved_names : list string :=
  [ "SHELL"; "VPATH"; "CURDIR"; "SUFFIXES"; "MFLAGS"; "COMSPEC";
    "COMMAND_LIST" ].

Definition ordinary_name (n : string) : bool :=
  negb (String.eqb n EmptyString) && all_chars name_char n &&
  negb (starts_with "MAKE" n) && negb (starts_with "GNUMAKE" n) &&
  negb (bool_decide (n ∈ reserved_names)).

(** The name of one target, as the Makefile writes them. *)
Definition word_char (c : ascii) : bool :=
  is_alnum c || Ascii.eqb c "_" || Ascii.eqb c "-".

Definition plain_word (w : string) : bool :=
  negb (String.eqb w EmptyString) && all_chars word_char w.

Fixpoint dollar_free (s : string) : bool :=
  match s with
  | String a r => negb (Ascii.eqb a "$") && dollar_free r
  | EmptyString => true
  end.

(** The definitions the model reads: text without references as the value
    of an ordinary name or of [COMMAND_LIST], the name of one target as the
    value of [.DEFAULT_GOAL]. *)
Definition ordinary_definition (d : string * string) : bool :=
  ordinary_name (fst d) && dollar_free (snd d).

Definition supported_definition (d : string * string) : bool :=
  ordinary_definition d
  || (String.eqb (fst d) ".DEFAULT_GOAL" && plain_word (snd d))
  || (String.eqb (fst d) "COMMAND_LIST" && dollar_free (snd d)).

(** A carriage return at the end of a line. *)
Definition without_cr (l : string) : string :=
  match String.rev l with
  | String c r => if Ascii.eqb c (ascii_of_nat 13) then String.rev r else l
  | EmptyString => l
  end.

Fixpoint drop_trailing_empty (ls : list string) : list string :=
  match ls with
  | [] => []
  | l :: rest =>
      match drop_trailing_empty rest with
      | [] => if String.eqb l EmptyString then [] else [l]
      | rest' => l :: rest'
      end
  end.

Section Host.

(** What make finds around it: the shell that runs command lines, in the
    environment make gives it; for the name of a target, whether the
    working directory holds a file of that name; and the definitions
    [NAME=value] of the file [.env] when there is one.  The Makefile is the
    only makefile of the directory, and make finds nothing to remake it or
    [.env] from. *)
Variable sh : string -> sh_result.
Variable file_exists : string -> bool.
Variable dotenv : option (list (string * string)).

Definition exists_file (name : string) : bool :=
  if String.eqb name ".env" then bool_decide (is_Some dotenv)
  else file_exists name.

(** [$(shell command)]: what the command writes, without the line ends
    after the last line that is not empty, and with the other line ends,
    and a carriage return in front of them, turned into one space each. *)
Definition shell_function (command : string) : string :=
  unwords (drop_trailing_empty (without_cr <$> stdout (sh command))).

(** [$(wildcard names)], for names without pattern characters: those that
    exist. *)
Definition wildcard_function (names : string) : string :=
  unwords (filter (fun n => exists_file n = true) (String.words names)).

(** Expansion of make text.  [$$] is a dollar sign; [$(name)], [${name}] and
    [$c] are references; [$(eval ...)], [$(shell ...)] and [$(wildcard ...)]
    are calls, and [eval] may define variables.  [expand_step again] is one
    step of the expansion, [again] expanding what remains. *)
Section Step.

Variable again : variables -> string -> option (string * variables).

Definition value_of (vs : variables) (name : string)
  : option (string * variables) :=
  match lookup_var name vs with
  | None => Some (EmptyString, vs)
  | Some (Simple, v) => Some (v, vs)
  | Some (Recursive, v) => again vs v
  end.

(** The text handed to [eval] is read as a line of a makefile; the model
    reads definitions. *)
Definition eval_text (vs : variables) (line : string) : option variables :=
  match parse_assignment line with
  | Some (name, Simple, raw) =>
      '(v, vs) ← again vs raw;
      Some (define name Simple v vs)
  | Some (name, Recursive, raw) => Some (define name Recursive raw vs)
  | None =>
      if String.eqb (trim (strip_comment line)) EmptyString then Some vs
      else None
  end.

Definition reference (vs : variables) (body : string)
  : option (string * variables) :=
  match call_of body with
  | Some (fn, arg) =>
      '(a, vs) ← again vs arg;
      if String.eqb fn "eval" then
        vs ← eval_text vs a; Some (EmptyString, vs)
      else if String.eqb fn "shell" then Some (shell_function a, vs)
      else Some (wildcard_function a, vs)
  | None =>
      '(name, vs) ← again vs body;
      value_of vs name
  end.

Definition followed_by (first : option (string * variables)) (rest : string)
  : option (string * variables) :=
  '(v, vs) ← first;
  '(t, vs) ← again vs rest;
  Some (join v t, vs).

Definition expand_step (vs : variables) (s : string)
  : option (string * variables) :=
  match s with
  | EmptyString => Some (EmptyString, vs)
  | String "$" EmptyString => Some ("$", vs)
  | String "$" (String "$" r) =>
      '(t, vs) ← again vs r; Some (String "$" t, vs)
  | String "$" (String "(" r) =>
      '(body, rest) ← until_close "(" ")" 0 r;
      followed_by (reference vs body) rest
  | String "$" (String "{" r) =>
      '(body, rest) ← until_close "{" "}" 0 r;
      followed_by (reference vs body) rest
  | String "$" (String c r) =>
      followed_by (value_of vs (String c EmptyString)) r
  | String a r =>
      '(t, vs) ← again vs r; Some (String a t, vs)
  end.

End Step.

Fixpoint expand (fuel : nat)
  : variables -> string -> option (string * variables) :=
  match fuel with
  | 0 => fun _ _ => None
  | S fuel => expand_step (expand fuel)
  end.

(** ** Reading the Makefile *)

(** A rule: its target, its prerequisites, the lines of its recipe (without
    the leading tab) and the line that introduced it. *)
Record rule := {
  target : string;
  prerequisites : list string;
  recipe : list string;
  header : string
}.

Record database := {
  vars : variables;
  rules : list rule;            (* in the order of the file *)
  phony : list string
}.

(** The reader: what was read so far, the depth of conditionals being
    skipped (0 when lines are read), and whether a tab line now belongs to
    the recipe of the last rule. *)
Record reader := {
  db : database;
  skipped : nat;
  in_rule : bool
}.

Definition with_vars (vs : variables) (d : database) : database :=
  {| vars := vs; rules := rules d; phony := phony d |}.

Definition add_recipe_line (line : string) (d : database) : database :=
  match reverse (rules d) with
  | [] => d
  | r :: earlier =>
      {| vars := vars d;
         rules := reverse earlier ++
                  [{| target := target r;
                      prerequisites := prerequisites r;
                      recipe := recipe r ++ [line];
                      header := header r |}];
         phony := phony d |}
  end.

(** The two arguments of [ifneq (a,b)]. *)
Definition parse_condition (args : string) : option (string * string) :=
  inner ← strip_prefix "(" (trim args) ≫= strip_suffix ")";
  '(a, b) ← break_at "," inner;
  Some (a, ltrim b).

(** [name] added to the names in [listed]. *)
Definition listed_with (listed name : string) : string :=
  if String.eqb listed EmptyString then name else listed +:+ " " +:+ name.

(** [include .env]: the file is listed in [MAKEFILE_LIST] and its
    definitions are made, in the order of the file.  [None] when the file
    holds a definition the model does not read. *)
Definition include_file (vs : variables) (name : string) : option variables :=
  if String.eqb name ".env" then
    defs ← dotenv;
    let listed := match lookup_var "MAKEFILE_LIST" vs with
                  | Some (_, l) => l
                  | None => EmptyString
                  end in
    if forallb supported_definition defs then
      Some (foldl (fun vs d => define (fst d) Recursive (snd d) vs)
                  (define "MAKEFILE_LIST" Simple (listed_with listed name) vs)
                  defs)
    else None
  else None.

Fixpoint include_files (vs : variables) (names : list string)
  : option variables :=
  match names with
  | [] => Some vs
  | n :: rest => vs ← include_file vs n; include_files vs rest
  end.

(** No default goal is set: [.DEFAULT_GOAL] is empty. *)
Definition goal_unset (vs : variables) : bool :=
  match lookup_var ".DEFAULT_GOAL" vs with
  | Some (_, v) => String.eqb v EmptyString
  | None => true
  end.

(** While no default goal is set, the target of a rule that is read
    becomes the default goal, unless its name starts with a dot and holds
    no slash, or is a pattern. *)
Definition set_default_goal (t : string) (vs : variables) : variables :=
  if goal_unset vs
     && negb (starts_with "." t && negb (contains "/" t))
     && negb (contains "%" t)
  then define ".DEFAULT_GOAL" Simple t vs
  else vs.

Definition opens_conditional (l : string) : bool :=
  starts_with "ifneq" l || starts_with "ifeq" l ||
  starts_with "ifdef" l || starts_with "ifndef" l.

Definition read_line (fuel : nat) (r : reader) (line : string)
  : option reader :=
  let l := trim (strip_comment line) in
  let d := db r in
  if negb (Nat.eqb (skipped r) 0) then
    if opens_conditional l then
      Some {| db := d; skipped := S (skipped r); in_rule := false |}
    else if String.eqb l "endif" then
      Some {| db := d; skipped := pred (skipped r); in_rule := false |}
    else Some r
  else if starts_with tab line then
    if in_rule r then
      Some {| db := add_recipe_line (drop_chars 1 line) d;
              skipped := 0; in_rule := true |}
    else None
  else if String.eqb l EmptyString then Some r
  else if starts_with "ifneq " l then
    '(a, b) ← parse_condition (drop_chars 6 l);
    '(a, vs) ← expand fuel (vars d) a;
    '(b, vs) ← expand fuel vs b;
    Some {| db := with_vars vs d;
            skipped := if String.eqb a b then 1 else 0;
            in_rule := false |}
  else if String.eqb l "endif" then
    Some {| db := d; skipped := 0; in_rule := false |}
  else if starts_with "include " l then
    '(names, vs) ← expand fuel (vars d) (drop_chars 8 l);
    vs ← include_files vs (String.words names);
    Some {| db := with_vars vs d; skipped := 0; in_rule := false |}
  else
    match parse_assignment line with
    | Some (name, Simple, raw) =>
        '(v, vs) ← expand fuel (vars d) raw;
        Some {| db := with_vars (define name Simple v vs) d;
                skipped := 0; in_rule := false |}
    | Some (name, Recursive, raw) =>
        Some {| db := with_vars (define name Recursive raw (vars d)) d;
                skipped := 0; in_rule := false |}
    | None =>
        '(targets, prereqs) ← break_at ":" l;
        '(targets, vs) ← expand fuel (vars d) targets;
        '(prereqs, vs) ← expand fuel vs prereqs;
        match String.words targets with
        | [t] =>
            if String.eqb t ".PHONY" then
              Some {| db := {| vars := vs; rules := rules d;
                               phony := phony d ++ String.words prereqs |};
                      skipped := 0; in_rule := false |}
            else
              Some {| db := {| vars := set_default_goal t vs;
                               rules := rules d ++
                                        [{| target := t;
                                            prerequisites := String.words prereqs;
                                            recipe := [];
                                            header := line |}];
                               phony := phony d |};
                      skipped := 0; in_rule := true |}
        | _ => None
        end
    end.

Fixpoint read_lines (fuel : nat) (r : reader) (lines : list string)
  : option reader :=
  match lines with
  | [] => Some r
  | l :: rest => r ← read_line fuel r l; read_lines fuel r rest
  end.

(** Before the first line: make has listed the Makefile in
    [MAKEFILE_LIST]. *)
Definition start : reader :=
  {| db := {| vars := define "MAKEFILE_LIST" Simple
                        (listed_with EmptyString makefile_name) [];
              rules := []; phony := [] |};
     skipped := 0; in_rule := false |}.

Definition read_makefile (fuel : nat) (lines : list string) : option database :=
  db <$> read_lines fuel start lines.


(** ** Running targets *)

(** What a run of make leaves: its exit status; the lines on standard
    output, in order (command lines make echoes, what the commands of
    recipes write, and the messages of make itself that go there); the
    command lines of recipes handed to the shell, in order (the commands of
    [$(shell ...)] are not among them); and the variables at the end.
    Standard error is not modelled. *)
Record outcome := {
  exit_status : nat;
  printed : list string;
  executed : list string;
  final_vars : variables
}.

(** GNU make exits with 0 when all went well and with 2 when a recipe
    failed or a target could not be made. *)
Definition make_ok : nat := 0.
Definition make_failed : nat := 2.

(** Every line of a recipe is expanded before the first is run. *)
Fixpoint expand_recipe (fuel : nat) (vs : variables) (lines : list string)
  : option (list string * variables) :=
  match lines with
  | [] => Some ([], vs)
  | l :: rest =>
      '(l, vs) ← expand fuel vs l;
      '(rest, vs) ← expand_recipe fuel vs rest;
      Some (l :: rest, vs)
  end.

(** The prefix characters of a command line: [@] keeps the line from being
    echoed, [-] lets a failure pass. *)
Fixpoint command_flags (silent ignore : bool) (l : string)
  : bool * bool * string :=
  match l with
  | String a r =>
      if is_blank a || Ascii.eqb a "+" then command_flags silent ignore r
      else if Ascii.eqb a "@" then command_flags true ignore r
      else if Ascii.eqb a "-" then command_flags silent true r
      else (silent, ignore, l)
  | EmptyString => (silent, ignore, l)
  end.

(** The expanded lines are run one after the other by the shell; a line
    that is empty after expansion runs nothing; the first command that fails
    stops make. *)
Fixpoint run_commands (lines : list string) (o : outcome) : outcome :=
  match lines with
  | [] => o
  | l :: rest =>
      let '(silent, ignore, command) := command_flags false false l in
      if String.eqb command EmptyString then run_commands rest o
      else
        let r := sh command in
        let o' := {| exit_status := exit_status o;
                     printed := printed o ++
                                (if silent then [] else [command]) ++ stdout r;
                     executed := executed o ++ [command];
                     final_vars := final_vars o |} in
        if Nat.eqb (status r) 0 || ignore then run_commands rest o'
        else {| exit_status := make_failed;
                printed := printed o';
                executed := executed o';
                final_vars := final_vars o' |}
  end.

Definition find_rule (t : string) (d : database) : option rule :=
  List.find (fun r => String.eqb (target r) t) (reverse (rules d)).

Definition is_phony (t : string) (d : database) : bool :=
  bool_decide (t ∈ phony d).

(** What make writes on standard output, in the C locale, for a goal it
    made without a failure and without starting a command. *)
Definition up_to_date_message (t : string) : string :=
  "make: '" +:+ t +:+ "' is up to date.".

Definition nothing_to_do_message (t : string) : string :=
  "make: Nothing to be done for '" +:+ t +:+ "'.".

Definition goal_message (phony_goal : bool) (r : rule) : string :=
  if phony_goal || bool_decide (recipe r = [])
  then nothing_to_do_message (target r)
  else up_to_date_message (target r).

(** The message of make after a goal, when there is one. *)
Definition report (phony_goal : bool) (r : rule) (before after : outcome)
  : outcome :=
  if Nat.eqb (exit_status after) make_ok
     && Nat.eqb (length (executed after)) (length (executed before))
  then {| exit_status := exit_status after;
          printed := printed after ++ [goal_message phony_goal r];
          executed := executed after;
          final_vars := final_vars after |}
  else after.

(** Bringing a goal up to date.  The rules of this Makefile have no
    prerequisites; a rule with prerequisites, and a goal without a rule in
    the Makefile (for which make looks among its built-in rules), are
    outside the model.  A target is remade when it is phony or no file of
    its name exists. *)
Definition update (fuel : nat) (d : database) (t : string) (o : outcome)
  : option outcome :=
  match find_rule t d with
  | None => None
  | Some r =>
      match prerequisites r with
      | [] =>
          if is_phony t d || negb (exists_file t) then
            '(lines, vs) ← expand_recipe fuel (final_vars o) (recipe r);
            Some (report (is_phony t d) r o
                    (run_commands lines
                       {| exit_status := exit_status o; printed := printed o;
                          executed := executed o; final_vars := vs |}))
          else Some (report (is_phony t d) r o o)
      | _ :: _ => None
      end
  end.

Fixpoint update_goals (fuel : nat) (d : database) (goals : list string)
    (o : outcome) : option outcome :=
  match goals with
  | [] => Some o
  | g :: rest =>
      o ← update fuel d g o;
      if Nat.eqb (exit_status o) make_ok then update_goals fuel d rest o
      else Some o
  end.

(** The goal of [make] without arguments: the one name in the value of
    [.DEFAULT_GOAL] after reading.  A value without a name or with several
    names stops make before any goal; the model gives no result then. *)
Definition default_goal (fuel : nat) (d : database) : option string :=
  match lookup_var ".DEFAULT_GOAL" (vars d) with
  | Some (f, raw) =>
      t ← match f with
          | Simple => Some raw
          | Recursive => fst <$> expand fuel (vars d) raw
          end;
      match String.words t with
      | [g] => Some g
      | _ => None
      end
  | None => None
  end.

Definition goals_of (fuel : nat) (d : database) (arguments : list string)
  : option (list string) :=
  match arguments with
  | [] => (fun g => [g]) <$> default_goal fuel d
  | _ => Some arguments
  end.

(** Before the first goal. *)
Definition started (vs : variables) : outcome :=
  {| exit_status := make_ok; printed := []; executed := []; final_vars := vs |}.

(** [make goals], run in the directory of the Makefile: GNU make 4.3,
    called as [make] in the C locale, with this file as the makefile it
    reads, without options on the command line or in the environment, and
    with the names of the goals as arguments. *)
Definition make (fuel : nat) (arguments : list string) : option outcome :=
  d ← read_makefile fuel text;
  goals ← goals_of fuel d arguments;
  update_goals fuel d goals (started (vars d)).

End Host.

(** ** The run of this Makefile *)

(** Fuel that is enough for every expansion this Makefile asks for. *)
Definition enough_fuel : nat := 200.

(** The Makefile among the files of the working directory. *)
Definition repository_files (others : string -> option (list string))
  : string -> option (list string) :=
  fun name => if String.eqb name makefile_name then Some text else others name.

(** The variables after reading: [MAKEFILE_LIST] set by make, the two
    definitions of the Makefile, and the definitions of [.env] when the
    file is there. *)
Definition base_vars : variables :=
  [ ("COMMAND_LIST", (Simple, "Makefile"));
    (".DEFAULT_GOAL", (Simple, "help"));
    ("MAKEFILE_LIST", (Simple, "Makefile")) ].

Definition read_vars (dotenv : option (list (string * string))) : variables :=
  match dotenv with
  | None => base_vars
  | Some defs =>
      foldl (fun vs d => define (fst d) Recursive (snd d) vs)
            (define "MAKEFILE_LIST" Simple "Makefile .env" base_vars)
            defs
  end.

(** The rules after reading. *)
Definition help_rule : rule :=
  {| target := "help";
     prerequisites := [];
     recipe :=
       [ "@grep -E '^[a-zA-Z].*:\s##\s.*$$' ${COMMAND_LIST} |sed 's/\\//g' |awk 'BEGIN {FS = "
           +:+ dq +:+ ": ## " +:+ dq +:+ "}; {printf "
           +:+ dq +:+ "\033[36m%-30s\033[0m %s\n" +:+ dq +:+ ", $$1, $$2}'" ];
     header := "help:" |}.

Definition tag_rule : rule :=
  {| target := "get_git_tag";
     prerequisites := [];
     recipe :=
       [ "$(eval git_ver = $(shell git describe --tags --dirty --abbrev=0))";
         "$(eval git_ver_verbose = $(shell git describe --tags --dirty))" ];
     header := "get_git_tag:" |}.

Definition build_rule : rule :=
  {| target := "build-core";
     prerequisites := [];
     recipe := [ "@wasm-pack build core --target web" ];
     header := "build-core: ## build core" |}.

Definition read_rules : list rule := [help_rule; tag_rule; build_rule].

Definition read_database (dotenv : option (list (string * string)))
  : database :=
  {| vars := read_vars dotenv; rules := read_rules;
     phony := ["help"; "build-core"] |}.

(** No [.env], or one that only gives ordinary names a text without
    references. *)
Definition dotenv_ordinary (dotenv : option (list (string * string))) : bool :=
  match dotenv with
  | None => true
  | Some defs => forallb ordinary_definition defs
  end.

(** No [.env], or one with definitions the model reads. *)
Definition dotenv_supported (dotenv : option (list (string * string))) : bool :=
  match dotenv with
  | None => true
  | Some defs => forallb supported_definition defs
  end.

(** The command line of the [help] recipe after expansion. *)
Definition help_command : string :=
  "grep -E '^[a-zA-Z].*:\s##\s.*$' Makefile |sed 's/\\//g' |awk 'BEGIN {FS = "
    +:+ dq +:+ ": ## " +:+ dq +:+ "}; {printf "
    +:+ dq +:+ "\033[36m%-30s\033[0m %s\n" +:+ dq +:+ ", $1, $2}'".

(** The command line of the [build-core] recipe. *)
Definition build_command : string := "wasm-pack build core --target web".

(** The two commands of [get_git_tag]. *)
Definition describe_abbreviated : string :=
  "git describe --tags --dirty --abbrev=0".
Definition describe_verbose : string := "git describe --tags --dirty".

(** A line of the listing: the name in cyan, filled to 30 columns, and the
    description. *)
Definition listing_line (name description : string) : string :=
  esc +:+ "[36m" +:+ pad true 30 name +:+ esc +:+ "[0m " +:+ description.

(** The annotation [name: ## description] of a line. *)
Definition annotation (line : string) : option (string * string) :=
  match split_on ": ## " 0 EmptyString line with
  | name :: description :: _ => Some (name, description)
  | _ => None
  end.

(** The targets with an annotation, with their descriptions. *)
Definition documented (d : database) : list (string * string) :=
  omap (fun r => annotation (header r)) (rules d).

(** Surroundings for concrete runs: no file besides the Makefile, and
    programs that all write [written] and exit with [code]. *)
Definition no_files (name : string) : option (list string) := None.

Definition tools (code : nat) (written : list string)
    (argv stdin : list string) : sh_result :=
  {| status := code; stdout := written |}.

Definition sample_sh (code : nat) (written : list string)
  : string -> sh_result :=
  fun command =>
    default {| status := code; stdout := written |}
      (posix_sh (repository_files no_files) (tools code written) command).

Definition no_file (name : string) : bool := false.

(** [g] gives every result [f] gives. *)
Definition refines (f g : variables -> string -> option (string * variables))
  : Prop :=
  forall vs s r, f vs s = Some r -> g vs s = Some r.

(** ** The stages of the [help] pipeline *)

(** The operands of the three commands, as the shell hands them over. *)
Definition help_pattern : string := "^[a-zA-Z].*:\s##\s.*$".

Definition help_sed_script : string := "s/\\//g".

Definition help_awk_program : string :=
  "BEGIN {FS = " +:+ dq +:+ ": ## " +:+ dq +:+ "}; {printf "
    +:+ dq +:+ "\033[36m%-30s\033[0m %s\n" +:+ dq +:+ ", $1, $2}".

Definition help_separator : string := ": ## ".

(** [:\s##\s.*$] *)
Definition help_tail : list piece :=
  [ One (Lit ":"); One Space; One (Lit "#"); One (Lit "#"); One Space;
    Many AnyChar; AtEnd ].

(** What [help_pattern] stands for. *)
Definition help_regex : regex :=
  {| anchored := true;
     pieces := One (Bracket false [("a", "z"); ("A", "Z")]%char)
               :: Many AnyChar :: help_tail |}.

Definition is_letter (c : ascii) : bool :=
  in_range c ("a", "z")%char || in_range c ("A", "Z")%char.

(** The text starts with a colon, a white space character, two hash signs
    and a white space character. *)
Definition annotation_here (s : string) : bool :=
  match s with
  | String a (String c1 (String h1 (String h2 (String c2 _)))) =>
      Ascii.eqb a ":" && Ascii.is_space c1 && Ascii.eqb h1 "#"
      && Ascii.eqb h2 "#" && Ascii.is_space c2
  | _ => false
  end.

(** Such an annotation starts somewhere in the text. *)
Fixpoint has_annotation (s : string) : bool :=
  annotation_here s ||
  match s with
  | String _ r => has_annotation r
  | EmptyString => false
  end.

(** The line starts with a letter and has an annotation after it. *)
Definition listed (line : string) : bool :=
  match line with
  | String a r => is_letter a && has_annotation r
  | EmptyString => false
  end.

(** The text without the character [c]. *)
Fixpoint without (c : ascii) (s : string) : string :=
  match s with
  | String a r => if Ascii.eqb a c then without c r else String a (without c r)
  | EmptyString => EmptyString
  end.

(** The character [c] does not occur in the text. *)
Fixpoint free_of (c : ascii) (s : string) : bool :=
  match s with
  | String a r => negb (Ascii.eqb a c) && free_of c r
  | EmptyString => true
  end.

Definition newline : ascii := ascii_of_nat 10.

(** The line awk prints for a record: the record is cut at
    [help_separator], and the first two pieces are printed. *)
Definition awk_entry (line : string) : string :=
  let fs := split_on help_separator 0 EmptyString line in
  listing_line (default EmptyString (fs !! 0)) (default EmptyString (fs !! 1)).

(** The line of the listing made from a line grep selected: sed takes the
    backslashes out, awk prints the entry. *)
Definition help_entry (line : string) : string :=
  awk_entry (without "\" line).

(** What [help_sed_script] and [help_awk_program] stand for. *)
Definition help_sed : regex * string * bool :=
  ({| anchored := false; pieces := [One (Lit "\")] |}, EmptyString, true).

Definition help_awk : awk_program :=
  {| separator := help_separator;
     format := esc +:+ "[36m%-30s" +:+ esc +:+ "[0m %s" +:+ String newline EmptyString;
     arguments := [1; 2] |}.

Definition carriage_return : ascii := ascii_of_nat 13.

(** The characters of a version text: the printing characters of ASCII
    other than the space, [#], [$] and the backslash. *)
Definition tag_char (c : ascii) : bool :=
  let n := nat_of_ascii c in
  Nat.leb 33 n && Nat.leb n 126 &&
  negb (Ascii.eqb c "#") && negb (Ascii.eqb c "$") && negb (Ascii.eqb c "\").

Definition tag_text (w : string) : bool := all_chars tag_char w.

(** What git writes for [git describe]: one line of version text, or
    nothing when it fails. *)
Definition tag_output (ls : list string) : bool :=
  match ls with
  | [] => true
  | [w] => tag_text w
  | _ => false
  end.

Definition tag_of (ls : list string) : string := default EmptyString (head ls).

(** The last definition of [name] in a [.env]. *)
Fixpoint last_definition (name : string) (defs : list (string * string))
  : option string :=
  match defs with
  | [] => None
  | (n, v) :: rest =>
      match last_definition name rest with
      | Some w => Some w
      | None => if String.eqb n name then Some v else None
      end
  end.

End Make.


(* ===================================================================== *)
(** * Properties of the run-once guard *)
(* ===================================================================== *)

Section GuardFacts.
Import Route.

Variable ib : nat -> completion.

#[local] Abbreviation effect := (Route.effect ib).
#[local] Abbreviation step := (Route.step ib).
#[local] Abbreviation run := (Route.run ib).

(** ** The callback, case by case *)

Lemma effect_set s i :
  cells s !! i = Some true -> effect i s = (Normal tt, s).
Proof.
  intros H. unfold Route.effect, bind, get_current. rewrite H. reflexivity.
Qed.

Lemma effect_unset s i :
  cells s !! i = Some false ->
  effect i s =
    match ib (length (init_log s)) with
    | Returns =>
        (Normal tt,
         {| cells := <[i := true]> (cells s);
            next_ref := next_ref s;
            init_log := init_log s ++ [(i, Returns)] |})
    | Throws =>
        (Thrown,
         {| cells := cells s;
            next_ref := next_ref s;
            init_log := init_log s ++ [(i, Throws)] |})
    end.
Proof.
  intros H. unfold Route.effect, bind, get_current, init, set_current.
  rewrite H. simpl. destruct (ib _); reflexivity.
Qed.

Lemma mounted_true s i : mounted i s = true <-> is_Some (cells s !! i).
Proof. unfold mounted. apply bool_decide_eq_true. Qed.

Lemma mounted_false s i : mounted i s = false <-> cells s !! i = None.
Proof.
  unfold mounted. rewrite bool_decide_eq_false. rewrite <- eq_None_not_Some.
  reflexivity.
Qed.

(** ** The lifecycle steps *)

Lemma step_Mount s :
  step s Mount =
    {| cells := <[next_ref s := false]> (cells s);
       next_ref := S (next_ref s);
       init_log := init_log s |}.
Proof. reflexivity. Qed.

Lemma step_Render s i : step s (Render i) = s.
Proof. simpl. destruct (mounted i s); reflexivity. Qed.

Lemma step_Invoke s i :
  step s (Invoke i) = if mounted i s then snd (effect i s) else s.
Proof. simpl. destruct (mounted i s); reflexivity. Qed.

Lemma step_Invoke_set s i :
  cells s !! i = Some true -> step s (Invoke i) = s.
Proof.
  intros H. rewrite step_Invoke, (effect_set _ _ H).
  destruct (mounted i s); reflexivity.
Qed.

Lemma step_Invoke_unset s i :
  cells s !! i = Some false ->
  step s (Invoke i) =
    {| cells := match ib (length (init_log s)) with
                | Returns => <[i := true]> (cells s)
                | Throws => cells s
                end;
       next_ref := next_ref s;
       init_log := init_log s ++ [(i, ib (length (init_log s)))] |}.
Proof.
  intros H. rewrite step_Invoke, (effect_unset _ _ H).
  assert (mounted i s = true) as -> by (apply mounted_true; eauto).
  destruct (ib _); reflexivity.
Qed.

Lemma step_Invoke_unmounted s i :
  cells s !! i = None -> step s (Invoke i) = s.
Proof.
  intros H. rewrite step_Invoke.
  apply mounted_false in H. rewrite H. reflexivity.
Qed.

Lemma run_app tr1 tr2 s : run (tr1 ++ tr2) s = run tr2 (run tr1 s).
Proof. unfold Route.run. apply foldl_app. Qed.

Lemma run_cons e tr s : run (e :: tr) s = run tr (step s e).
Proof. reflexivity. Qed.

(** ** The log only grows, identities are never reused *)

Lemma step_log_grows s e :
  exists l, init_log (step s e) = init_log s ++ l.
Proof.
  destruct e as [|i|i|i].
  - exists []. rewrite app_nil_r. reflexivity.
  - exists []. rewrite step_Render, app_nil_r. reflexivity.
  - destruct (cells s !! i) as [[|]|] eqn:E.
    + exists []. rewrite (step_Invoke_set _ _ E), app_nil_r. reflexivity.
    + eexists. rewrite (step_Invoke_unset _ _ E). reflexivity.
    + exists []. rewrite (step_Invoke_unmounted _ _ E), app_nil_r. reflexivity.
  - exists []. rewrite app_nil_r. reflexivity.
Qed.

Lemma run_log_grows tr s :
  exists l, init_log (run tr s) = init_log s ++ l.
Proof.
  revert s. induction tr as [|e tr IH]; intros s.
  - exists []. rewrite app_nil_r. reflexivity.
  - rewrite run_cons. destruct (IH (step s e)) as [l2 H2].
    destruct (step_log_grows s e) as [l1 H1].
    exists (l1 ++ l2). rewrite H2, H1, app_assoc. reflexivity.
Qed.

Lemma calls_ending_app c i s l s' :
  init_log s' = init_log s ++ l ->
  calls_ending c i s' =
    calls_ending c i s + length (filter (fun e => e = (i, c)) l).
Proof.
  intros H. unfold calls_ending. rewrite H, filter_app, length_app.
  reflexivity.
Qed.

Lemma calls_ending_run_mono c i tr s :
  calls_ending c i s <= calls_ending c i (run tr s).
Proof.
  destruct (run_log_grows tr s) as [l H].
  rewrite (calls_ending_app c i _ _ _ H). lia.
Qed.

Lemma next_ref_step s e : next_ref s <= next_ref (step s e).
Proof.
  destruct e as [|i|i|i].
  - rewrite step_Mount. simpl. lia.
  - rewrite step_Render. lia.
  - destruct (cells s !! i) as [[|]|] eqn:E.
    + rewrite (step_Invoke_set _ _ E). lia.
    + rewrite (step_Invoke_unset _ _ E). simpl. lia.
    + rewrite (step_Invoke_unmounted _ _ E). lia.
  - simpl. lia.
Qed.

Lemma next_ref_run tr s : next_ref s <= next_ref (run tr s).
Proof.
  revert s. induction tr as [|e tr IH]; intros s; [reflexivity|].
  rewrite run_cons. specialize (IH (step s e)).
  pose proof (next_ref_step s e). lia.
Qed.

Lemma well_formed_empty : well_formed empty_store.
Proof.
  split.
  - intros i [b Hb]. simpl in Hb. rewrite lookup_empty in Hb. discriminate.
  - intros i c H. simpl in H. apply not_elem_of_nil in H. contradiction.
Qed.

Lemma well_formed_step s e : well_formed s -> well_formed (step s e).
Proof.
  intros [Hc Hl]. destruct e as [|i|i|i].
  - rewrite step_Mount. split; simpl.
    + intros j Hj. destruct (decide (next_ref s = j)) as [<-|Hne]; [lia|].
      rewrite lookup_insert_ne in Hj by done. apply Hc in Hj. lia.
    + intros j c Hj. apply Hl in Hj. lia.
  - rewrite step_Render. split; assumption.
  - destruct (cells s !! i) as [[|]|] eqn:E.
    + rewrite (step_Invoke_set _ _ E). split; assumption.
    + rewrite (step_Invoke_unset _ _ E). split; simpl.
      * intros j Hj. destruct (ib _); [|auto].
        destruct (decide (i = j)) as [<-|Hne]; [apply Hc; eauto|].
        rewrite lookup_insert_ne in Hj by done. auto.
      * intros j c Hj. apply elem_of_app in Hj as [Hj|Hj]; [eauto|].
        apply list_elem_of_singleton in Hj. inversion Hj; subst.
        apply Hc. eauto.
    + rewrite (step_Invoke_unmounted _ _ E). split; assumption.
  - split; simpl.
    + intros j Hj. destruct (decide (i = j)) as [<-|Hne].
      * rewrite lookup_delete_eq in Hj. destruct Hj as [? ?]. discriminate.
      * rewrite lookup_delete_ne in Hj by done. auto.
    + assumption.
Qed.

Lemma well_formed_run tr s : well_formed s -> well_formed (run tr s).
Proof.
  revert s. induction tr as [|e tr IH]; intros s H; [assumption|].
  rewrite run_cons. apply IH, well_formed_step, H.
Qed.

Lemma well_formed_reachable tr : well_formed (run tr empty_store).
Proof. apply well_formed_run, well_formed_empty. Qed.

(** ** The guard of one instance along a trace *)

Lemma calls_ending_snoc c i s s' j d :
  init_log s' = init_log s ++ [(j, d)] ->
  calls_ending c i s' =
    calls_ending c i s + (if decide ((j, d) = (i, c)) then 1 else 0).
Proof.
  intros H. rewrite (calls_ending_app c i _ _ _ H). f_equal.
  rewrite filter_cons, filter_nil. destruct (decide _); reflexivity.
Qed.

Lemma invocations_cons i e tr :
  invocations i (e :: tr) =
    (if decide (e = Invoke i) then 1 else 0) + invocations i tr.
Proof.
  unfold invocations. rewrite filter_cons.
  destruct (decide (e = Invoke i)); reflexivity.
Qed.

Lemma invocations_app i tr1 tr2 :
  invocations i (tr1 ++ tr2) = invocations i tr1 + invocations i tr2.
Proof. unfold invocations. rewrite filter_app, length_app. reflexivity. Qed.

Lemma guard_state_step s e i n :
  well_formed s -> guard_state i n s -> e <> Unmount i ->
  guard_state i ((if decide (e = Invoke i) then 1 else 0) + n) (step s e).
Proof.
  intros [Hc Hl] G Hne.
  assert (is_Some (cells s !! i)) as Hi by (destruct G as [[-> _]|[-> _]]; eauto).
  pose proof (Hc i Hi) as Hlt.
  destruct e as [|j|j|j].
  - (* a new instance gets a new ref object *)
    rewrite decide_False by discriminate. simpl "+".
    rewrite step_Mount. unfold guard_state, calls_ending in *. simpl.
    rewrite lookup_insert_ne by lia. exact G.
  - rewrite decide_False by discriminate. rewrite step_Render. exact G.
  - destruct (decide (j = i)) as [->|Hji].
    + rewrite decide_True by reflexivity.
      destruct G as [(Hf & Hr & Ht)|(Hf & Hr & Ht)].
      * rewrite (step_Invoke_unset _ _ Hf).
        set (s' := {| cells := _ |}).
        assert (init_log s' =
                init_log s ++ [(i, ib (length (init_log s)))]) as Hlog
          by reflexivity.
        unfold guard_state.
        rewrite (calls_ending_snoc Returns i s s' _ _ Hlog).
        rewrite (calls_ending_snoc Throws i s s' _ _ Hlog).
        subst s'. simpl. destruct (ib (length (init_log s))).
        -- right. rewrite lookup_insert_eq.
           rewrite decide_True by reflexivity.
           rewrite decide_False by congruence. split; [reflexivity|lia].
        -- left. rewrite decide_False by congruence.
           rewrite decide_True by reflexivity. split; [assumption|lia].
      * rewrite (step_Invoke_set _ _ Hf). right.
        split; [assumption|]. split; [assumption|lia].
    + rewrite decide_False by congruence. simpl "+".
      destruct (cells s !! j) as [[|]|] eqn:E.
      * rewrite (step_Invoke_set _ _ E). exact G.
      * rewrite (step_Invoke_unset _ _ E).
        set (s' := {| cells := _ |}).
        assert (init_log s' =
                init_log s ++ [(j, ib (length (init_log s)))]) as Hlog
          by reflexivity.
        unfold guard_state.
        rewrite (calls_ending_snoc Returns i s s' _ _ Hlog).
        rewrite (calls_ending_snoc Throws i s s' _ _ Hlog).
        rewrite !decide_False by congruence. rewrite !Nat.add_0_r.
        assert (cells s' !! i = cells s !! i) as ->; [|exact G].
        subst s'. simpl. destruct (ib _); [|reflexivity].
        apply lookup_insert_ne. assumption.
      * rewrite (step_Invoke_unmounted _ _ E). exact G.
  - rewrite decide_False by discriminate. simpl "+".
    assert (j <> i) as Hji by congruence.
    unfold guard_state, calls_ending in *. simpl.
    rewrite lookup_delete_ne by assumption. exact G.
Qed.

Lemma guard_state_run tr s i n :
  well_formed s -> guard_state i n s -> Unmount i ∉ tr ->
  guard_state i (n + invocations i tr) (run tr s).
Proof.
  revert s n. induction tr as [|e tr IH]; intros s n Hwf G Hun.
  - unfold invocations. simpl. rewrite Nat.add_0_r. exact G.
  - rewrite run_cons, invocations_cons.
    apply not_elem_of_cons in Hun as [Hne Hun].
    replace (n + ((if decide (e = Invoke i) then 1 else 0) + invocations i tr))
      with (((if decide (e = Invoke i) then 1 else 0) + n) + invocations i tr)
      by lia.
    apply IH; [apply well_formed_step; assumption| |assumption].
    apply guard_state_step; [assumption|assumption|congruence].
Qed.

(** A newly mounted instance: flag unset, no call to [init()] yet. *)
Lemma guard_state_mount s :
  well_formed s -> guard_state (next_ref s) 0 (step s Mount).
Proof.
  intros [Hc Hl]. left. rewrite step_Mount. unfold calls_ending. simpl.
  rewrite lookup_insert_eq. split; [reflexivity|].
  assert (forall c, filter (fun e => e = (next_ref s, c)) (init_log s) = [])
    as Hnone.
  { intros c. apply length_zero_iff_nil.
    destruct (filter _ _) as [|x l] eqn:E; [reflexivity|exfalso].
    assert (x ∈ filter (fun e => e = (next_ref s, c)) (init_log s)) as Hx
      by (rewrite E; left).
    apply list_elem_of_filter in Hx as [-> Hx]. apply Hl in Hx. lia. }
  rewrite !Hnone. split; reflexivity.
Qed.

Lemma guard_state_fresh tr0 tr :
  let s0 := run tr0 empty_store in
  let i := next_ref s0 in
  Unmount i ∉ tr ->
  guard_state i (invocations i tr) (run tr (step s0 Mount)).
Proof.
  intros s0 i Hun.
  apply (guard_state_run tr (step s0 Mount) i 0); [| |assumption].
  - apply well_formed_step, well_formed_reachable.
  - apply guard_state_mount, well_formed_reachable.
Qed.

(** A flag that is not unset is never unset later, whatever happens: a set
    flag stays set until the instance is unmounted, and the ref object of an
    unmounted instance is not used again. *)
Lemma not_unset_step s e i :
  well_formed s -> i < next_ref s ->
  cells s !! i <> Some false -> cells (step s e) !! i <> Some false.
Proof.
  intros [Hc Hl] Hlt H. destruct e as [|j|j|j].
  - rewrite step_Mount. simpl. rewrite lookup_insert_ne by lia. exact H.
  - rewrite step_Render. exact H.
  - destruct (cells s !! j) as [[|]|] eqn:E.
    + rewrite (step_Invoke_set _ _ E). exact H.
    + rewrite (step_Invoke_unset _ _ E). simpl.
      destruct (ib _); [|exact H].
      destruct (decide (j = i)) as [->|Hji].
      * rewrite lookup_insert_eq. discriminate.
      * rewrite lookup_insert_ne by assumption. exact H.
    + rewrite (step_Invoke_unmounted _ _ E). exact H.
  - simpl. destruct (decide (j = i)) as [->|Hji].
    + rewrite lookup_delete_eq. discriminate.
    + rewrite lookup_delete_ne by assumption. exact H.
Qed.

Lemma not_unset_run tr s i :
  well_formed s -> i < next_ref s ->
  cells s !! i <> Some false -> cells (run tr s) !! i <> Some false.
Proof.
  revert s. induction tr as [|e tr IH]; intros s Hwf Hlt H; [exact H|].
  rewrite run_cons. apply IH.
  - apply well_formed_step, Hwf.
  - pose proof (next_ref_step s e). lia.
  - apply not_unset_step; assumption.
Qed.

Lemma set_stays_set tr s i :
  well_formed s -> cells s !! i = Some true -> Unmount i ∉ tr ->
  cells (run tr s) !! i = Some true.
Proof.
  revert s. induction tr as [|e tr IH]; intros s Hwf H Hun; [exact H|].
  apply not_elem_of_cons in Hun as [Hne Hun].
  rewrite run_cons. apply IH; [apply well_formed_step, Hwf| |assumption].
  destruct Hwf as [Hc Hl].
  assert (i < next_ref s) as Hlt by (apply Hc; eauto).
  destruct e as [|j|j|j].
  - rewrite step_Mount. simpl. rewrite lookup_insert_ne by lia. exact H.
  - rewrite step_Render. exact H.
  - destruct (cells s !! j) as [[|]|] eqn:E.
    + rewrite (step_Invoke_set _ _ E). exact H.
    + rewrite (step_Invoke_unset _ _ E). simpl.
      destruct (ib _); [|exact H].
      rewrite lookup_insert_ne by congruence. exact H.
    + rewrite (step_Invoke_unmounted _ _ E). exact H.
  - simpl. rewrite lookup_delete_ne by congruence. exact H.
Qed.

End GuardFacts.

(** ** The claims about the guard *)

Section GuardClaims.
Import Route.

Variable ib : nat -> completion.

#[local] Abbreviation effect := (Route.effect ib).
#[local] Abbreviation step := (Route.step ib).
#[local] Abbreviation run := (Route.run ib).

(** C1, as amended.  Take any history [tr0] of the page, mount a new
    instance [i] of [Index], and let any trace [tr] follow in which [i] is
    not unmounted and its effect is invoked [N >= 1] times.  Provided no
    call to [init()] made by [i] raised, [i] has called [init()] exactly
    once; the first invocation found the flag unset, called [init()] and set
    the flag; every later invocation found the flag set and changed nothing
    (so it made no call). *)
Theorem init_called_exactly_once tr0 tr :
  let s0 := run tr0 empty_store in
  let i := next_ref s0 in
  let s1 := step s0 Mount in
  Unmount i ∉ tr ->
  1 <= invocations i tr ->
  calls_ending Throws i (run tr s1) = 0 ->
  calls_of i (run tr s1) = 1 /\
  forall tr1 tr2, tr = tr1 ++ Invoke i :: tr2 ->
    let before := run tr1 s1 in
    let after := step before (Invoke i) in
    if decide (invocations i tr1 = 0) then
      cells before !! i = Some false /\
      init_log after = init_log before ++ [(i, Returns)] /\
      cells after !! i = Some true
    else
      cells before !! i = Some true /\ after = before.
Proof.
  intros s0 i s1 Hun HN Hthrows. split.
  - destruct (guard_state_fresh ib tr0 tr Hun) as [(_ & _ & Ht)|(_ & Hr & _)].
    + fold s0 i s1 in Ht. lia.
    + fold s0 i s1 in Hr. unfold calls_of. lia.
  - intros tr1 tr2 ->. intros before after.
    assert (Unmount i ∉ tr1) as Hun1
      by (intros H; apply Hun, elem_of_app; left; exact H).
    assert (calls_ending Throws i after = 0) as Hafter.
    { pose proof (calls_ending_run_mono ib Throws i tr2 after) as Hm.
      replace (run tr2 after) with (run (tr1 ++ Invoke i :: tr2) s1) in Hm
        by (rewrite run_app, run_cons; reflexivity).
      lia. }
    assert (calls_ending Throws i before = 0) as Hbefore.
    { pose proof (calls_ending_run_mono ib Throws i [Invoke i] before) as Hm.
      change (run [Invoke i] before) with after in Hm. lia. }
    pose proof (guard_state_fresh ib tr0 tr1 Hun1) as G.
    fold s0 i s1 before in G.
    destruct (decide (invocations i tr1 = 0)) as [Hz|Hnz].
    + destruct G as [(Hf & _ & _)|(_ & _ & Ht)]; [|lia].
      split; [exact Hf|]. subst after.
      rewrite (step_Invoke_unset ib _ _ Hf) in Hafter |- *.
      set (s' := {| cells := _ |}) in *.
      assert (init_log s' =
              init_log before ++ [(i, ib (length (init_log before)))])
        as Hlog by reflexivity.
      rewrite (calls_ending_snoc Throws i before s' _ _ Hlog) in Hafter.
      subst s'. simpl. destruct (ib (length (init_log before))).
      * rewrite lookup_insert_eq. split; reflexivity.
      * rewrite decide_True in Hafter by reflexivity. lia.
    + destruct G as [(_ & _ & Ht)|(Hf & _ & _)]; [lia|].
      split; [exact Hf|]. apply step_Invoke_set. exact Hf.
Qed.

(** C2.  Let the effect of a mounted instance [i] be invoked when its flag
    is unset, and let that call to [init()] raise.  Then the flag is still
    unset afterwards (the assignment after the call is not reached), and
    the next invocation of the effect of [i] calls [init()] again, so that
    [i] has called [init()] at least twice.  In general, an instance that
    was invoked twice or more and has called [init()] exactly once has had
    no call raise. *)
Theorem init_raise_leaves_guard_unset tr0 tr1 tr2 :
  let s0 := run tr0 empty_store in
  let i := next_ref s0 in
  let s1 := step s0 Mount in
  let before := run tr1 s1 in
  let after := step before (Invoke i) in
  let later := run tr2 after in
  Unmount i ∉ tr1 ++ tr2 ->
  invocations i tr2 = 0 ->
  cells before !! i = Some false ->
  ib (length (init_log before)) = Throws ->
  (fst (effect i before) = Thrown /\
   cells after !! i = Some false /\
   init_log after = init_log before ++ [(i, Throws)]) /\
  (init_log (step later (Invoke i)) =
     init_log later ++ [(i, ib (length (init_log later)))] /\
   2 <= calls_of i (step later (Invoke i))) /\
  (forall tr, Unmount i ∉ tr -> 2 <= invocations i tr ->
     calls_of i (run tr s1) = 1 -> calls_ending Throws i (run tr s1) = 0).
Proof.
  intros s0 i s1 before after later Hun Hnone Hf Hthrow.
  assert (after = {| cells := cells before; next_ref := next_ref before;
                     init_log := init_log before ++ [(i, Throws)] |})
    as Hafter.
  { subst after. rewrite (step_Invoke_unset ib _ _ Hf), Hthrow. reflexivity. }
  assert (Unmount i ∉ tr1 ++ Invoke i :: tr2) as Hun'.
  { intros H. apply elem_of_app in H as [H|H].
    - apply Hun, elem_of_app. left. exact H.
    - apply elem_of_cons in H as [H|H]; [discriminate|].
      apply Hun, elem_of_app. right. exact H. }
  pose proof (guard_state_fresh ib tr0 _ Hun') as G.
  fold s0 i s1 in G.
  rewrite run_app, run_cons in G. fold before after later in G.
  assert (cells later !! i = Some false) as Hlater.
  { assert (Unmount i ∉ tr1) as Hun1
      by (intros H; apply Hun, elem_of_app; left; exact H).
    pose proof (guard_state_fresh ib tr0 tr1 Hun1) as G1.
    fold s0 i s1 before in G1.
    assert (calls_ending Returns i later = 0) as Hr0.
    { assert (Unmount i ∉ tr2) as Hun2
        by (intros H; apply Hun, elem_of_app; right; exact H).
      assert (guard_state i (invocations i tr1 + 1) after) as G2.
      { destruct G1 as [(_ & Hr & Ht)|(Hf' & _)]; [|congruence].
        left. rewrite Hafter. unfold calls_ending in *. simpl.
        rewrite !filter_app, !length_app, !filter_cons, !filter_nil.
        rewrite decide_False by congruence.
        rewrite decide_True by reflexivity. simpl.
        split; [exact Hf|]. split; lia. }
      assert (well_formed after) as Hwf
        by (apply well_formed_step, well_formed_run, well_formed_step,
              well_formed_reachable).
      pose proof (guard_state_run ib tr2 after i _ Hwf G2 Hun2) as G3.
      fold later in G3. rewrite Hnone in G3.
      destruct G3 as [(_ & Hr & _)|(_ & _ & Ht)]; [exact Hr|].
      destruct G as [(_ & Hr & _)|(_ & _ & Ht')]; [exact Hr|].
      rewrite invocations_app, invocations_cons, Hnone in Ht'.
      rewrite decide_True in Ht' by reflexivity.
      destruct G1 as [(_ & _ & Ht1)|(Hf' & _)]; [|congruence].
      pose proof (calls_ending_run_mono ib Throws i tr2 after) as Hm.
      fold later in Hm. rewrite Hafter in Hm at 1.
      unfold calls_ending at 1 in Hm. simpl in Hm.
      rewrite filter_app, length_app, filter_cons, filter_nil in Hm.
      rewrite decide_True in Hm by reflexivity. simpl in Hm.
      unfold calls_ending in Ht1. lia. }
    destruct G as [(Hf' & _)|(_ & Hr & _)]; [exact Hf'|lia]. }
  split; [|split].
  - split; [|split].
    + rewrite (effect_unset ib _ _ Hf), Hthrow. reflexivity.
    + rewrite Hafter. exact Hf.
    + rewrite Hafter. reflexivity.
  - rewrite (step_Invoke_unset ib _ _ Hlater).
    set (s' := {| cells := _ |}).
    assert (init_log s' =
            init_log later ++ [(i, ib (length (init_log later)))])
      as Hlog by reflexivity.
    split; [exact Hlog|]. unfold calls_of.
    rewrite (calls_ending_snoc Returns i later s' _ _ Hlog).
    rewrite (calls_ending_snoc Throws i later s' _ _ Hlog).
    pose proof (calls_ending_run_mono ib Throws i tr2 after) as Hm.
    fold later in Hm. rewrite Hafter in Hm at 1.
    unfold calls_ending at 1 in Hm. simpl in Hm.
    rewrite filter_app, length_app, filter_cons, filter_nil in Hm.
    rewrite decide_True in Hm by reflexivity. simpl in Hm.
    destruct (ib (length (init_log later))).
    + rewrite decide_True by reflexivity. lia.
    + rewrite (decide_True (P := (i, Throws) = (i, Throws))) by reflexivity.
      lia.
  - intros tr Hu H2 Hone.
    destruct (guard_state_fresh ib tr0 tr Hu) as [(_ & Hr & Ht)|(_ & Hr & _)];
      fold s0 i s1 in Hr; unfold calls_of in Hone.
    + fold s0 i s1 in Ht. lia.
    + lia.
Qed.

(** C3.  The flag of an instance is monotone.  It is created unset when
    the instance mounts.  As long as the instance is mounted the flag is set
    exactly when a call to [init()] made by the instance has returned, and
    at most one such call ever returns; an invocation that finds the flag
    unset and whose call to [init()] returns sets it.  Once set it is never
    unset again by any later event: it stays set until the instance is
    unmounted, and the ref object is not used again afterwards. *)
Theorem guard_flag_monotone tr0 tr :
  let s0 := run tr0 empty_store in
  let i := next_ref s0 in
  let s1 := step s0 Mount in
  let s := run tr s1 in
  cells s1 !! i = Some false /\
  (Unmount i ∉ tr ->
     cells s !! i = Some (bool_decide (calls_ending Returns i s = 1)) /\
     calls_ending Returns i s <= 1) /\
  (cells s !! i = Some false -> ib (length (init_log s)) = Returns ->
     cells (step s (Invoke i)) !! i = Some true) /\
  (cells s !! i = Some true ->
     forall tr', cells (run tr' s) !! i <> Some false /\
                 (Unmount i ∉ tr' -> cells (run tr' s) !! i = Some true)).
Proof.
  intros s0 i s1 s.
  assert (well_formed s1) as Hwf1
    by apply well_formed_step, well_formed_reachable.
  assert (well_formed s) as Hwf by apply well_formed_run, Hwf1.
  split; [|split; [|split]].
  - subst s1. rewrite step_Mount. simpl. apply lookup_insert_eq.
  - intros Hun.
    destruct (guard_state_fresh ib tr0 tr Hun) as [(Hf & Hr & _)|(Hf & Hr & _)];
      fold s0 i s1 s in Hf, Hr; (split; [|lia]); rewrite Hr; exact Hf.
  - intros Hf Hret. rewrite (step_Invoke_unset ib _ _ Hf), Hret. simpl.
    apply lookup_insert_eq.
  - intros Ht tr'. split.
    + apply not_unset_run.
      * exact Hwf.
      * destruct Hwf as [Hc _]. apply Hc. eauto.
      * rewrite Ht. discriminate.
    + intros Hun. apply set_stays_set; assumption.
Qed.

(** C4.  Guard state belongs to the instance.  After any history of the
    page (other instances mounted, initialised, unmounted), a newly mounted
    instance [i] has a ref object no earlier instance had, its flag is
    unset and no call to [init()] is attributed to it; its first lifecycle
    invocation calls [init()] once, whatever earlier instances did, and
    touches the flag of no other instance. *)
Theorem fresh_instance_calls_init tr0 :
  let s0 := run tr0 empty_store in
  let i := next_ref s0 in
  let s1 := step s0 Mount in
  let s2 := step s1 (Invoke i) in
  (cells s0 !! i = None /\ forall c, (i, c) ∉ init_log s0) /\
  (cells s1 !! i = Some false /\ calls_of i s1 = 0) /\
  (init_log s2 = init_log s0 ++ [(i, ib (length (init_log s0)))] /\
   calls_of i s2 = 1) /\
  (forall j, j <> i -> cells s2 !! j = cells s0 !! j).
Proof.
  intros s0 i s1 s2.
  pose proof (well_formed_reachable ib tr0) as Hwf. fold s0 in Hwf.
  pose proof (guard_state_mount ib s0 Hwf) as G. fold i s1 in G.
  destruct G as [(Hf & Hr & Ht)|(_ & Hr & Ht)]; [|lia].
  assert (s2 = {| cells := match ib (length (init_log s0)) with
                           | Returns => <[i := true]> (cells s1)
                           | Throws => cells s1
                           end;
                  next_ref := next_ref s1;
                  init_log := init_log s0 ++ [(i, ib (length (init_log s0)))] |})
    as Hs2 by (subst s2; rewrite (step_Invoke_unset ib _ _ Hf); reflexivity).
  split; [|split; [|split]].
  - destruct Hwf as [Hc Hl]. split.
    + destruct (cells s0 !! i) eqn:E; [|reflexivity].
      assert (i < next_ref s0) by (apply Hc; eauto). subst i. lia.
    + intros c H. apply Hl in H. subst i. lia.
  - split; [exact Hf|]. unfold calls_of. lia.
  - split; [rewrite Hs2; reflexivity|]. unfold calls_of.
    assert (init_log s2 = init_log s1 ++ [(i, ib (length (init_log s0)))])
      as Hlog by (rewrite Hs2; reflexivity).
    rewrite (calls_ending_snoc Returns i s1 s2 _ _ Hlog).
    rewrite (calls_ending_snoc Throws i s1 s2 _ _ Hlog).
    rewrite Hr, Ht. destruct (ib _).
    + rewrite decide_True by reflexivity.
      rewrite decide_False by congruence. reflexivity.
    + rewrite decide_False by congruence.
      rewrite decide_True by reflexivity. reflexivity.
  - intros j Hj. rewrite Hs2. simpl.
    assert (cells s1 !! j = cells s0 !! j) as H1.
    { subst s1. rewrite step_Mount. simpl.
      apply lookup_insert_ne. subst i. congruence. }
    destruct (ib _); [|exact H1].
    rewrite lookup_insert_ne by congruence. exact H1.
Qed.

End GuardClaims.

(** ** Concrete runs *)


(** C1, as stated, fails.  Mount the route and invoke the effect of the
    instance twice, with an [init()] whose first call raises: the first
    invocation calls [init()] and leaves the flag unset, the second calls
    [init()] again.  Two invocations, two calls, not one. *)
Lemma init_called_twice_after_raise :
  let ib := Route.raises_once in
  let tr := [Route.Invoke 0; Route.Invoke 0] in
  let s0 := Route.run ib [] Route.empty_store in
  let i := Route.next_ref s0 in
  let s1 := Route.step ib s0 Route.Mount in
  (Route.Unmount i ∉ tr) /\
  1 <= Route.invocations i tr /\
  Route.cells (Route.step ib s1 (Route.Invoke i)) !! i = Some false /\
  Route.init_log (Route.run ib tr s1) = [(i, Route.Throws); (i, Route.Returns)] /\
  Route.calls_of i (Route.run ib tr s1) = 2 /\
  Route.calls_of i (Route.run ib tr s1) <> 1.
Proof.
  intros ib tr s0 i s1.
  split; [apply (bool_decide_unpack _); vm_compute; exact I|].
  split; [vm_compute; lia|].
  split; [reflexivity|]. split; [reflexivity|]. split; [reflexivity|].
  vm_compute. discriminate.
Qed.

(** A run of C1: mount, and invoke the effect twice with a re-render in
    between, [init()] returning. *)
Lemma init_called_exactly_once_witness :
  let tr := [Route.Invoke 0; Route.Render 0; Route.Invoke 0] in
  let s1 := Route.step Route.always_returns Route.empty_store Route.Mount in
  Route.invocations 0 tr = 2 /\
  Route.calls_ending Route.Throws 0 (Route.run Route.always_returns tr s1) = 0 /\
  Route.calls_of 0 (Route.run Route.always_returns tr s1) = 1.
Proof.
  intros tr s1.
  split; [reflexivity|]. split; [reflexivity|].
  pose proof (init_called_exactly_once Route.always_returns [] tr) as H.
  cbv zeta in H.
  apply H.
  - apply (bool_decide_unpack _). vm_compute. exact I.
  - vm_compute. lia.
  - reflexivity.
Defined.

(** A run of C2: the first call to [init()] raises, the page re-renders,
    and the effect is invoked again. *)
Lemma init_raise_leaves_guard_unset_witness :
  let before := Route.step Route.raises_once Route.empty_store Route.Mount in
  let after := Route.step Route.raises_once before (Route.Invoke 0) in
  let later := Route.run Route.raises_once [Route.Render 0] after in
  (Route.cells before !! 0 = Some false /\
   Route.raises_once (length (Route.init_log before)) = Route.Throws) /\
  Route.cells after !! 0 = Some false /\
  Route.init_log (Route.step Route.raises_once later (Route.Invoke 0)) =
    Route.init_log later ++
      [(0, Route.raises_once (length (Route.init_log later)))] /\
  2 <= Route.calls_of 0 (Route.step Route.raises_once later (Route.Invoke 0)).
Proof.
  intros before after later.
  split; [split; reflexivity|].
  pose proof (init_raise_leaves_guard_unset Route.raises_once [] [] [Route.Render 0])
    as H.
  cbv zeta in H.
  destruct H as [(_ & Ha & _) [(Hl & Hc) _]].
  - apply (bool_decide_unpack _). vm_compute. exact I.
  - reflexivity.
  - reflexivity.
  - reflexivity.
  - split; [exact Ha|]. split; [exact Hl|exact Hc].
Defined.

(** A run of C3: mount, a successful invocation, then more events. *)
Lemma guard_flag_monotone_witness :
  let s1 := Route.step Route.always_returns Route.empty_store Route.Mount in
  let s := Route.run Route.always_returns [Route.Invoke 0] s1 in
  let s' := Route.run Route.always_returns
              [Route.Invoke 0; Route.Mount; Route.Invoke 1; Route.Render 0] s in
  Route.cells s1 !! 0 = Some false /\
  Route.cells s !! 0 = Some true /\
  Route.cells s' !! 0 = Some true.
Proof.
  intros s1 s s'.
  pose proof (guard_flag_monotone Route.always_returns [] [Route.Invoke 0]) as H.
  cbv zeta in H. destruct H as (H1 & _ & _ & H4).
  split; [exact H1|]. split; [reflexivity|].
  apply H4; [reflexivity|].
  apply (bool_decide_unpack _). vm_compute. exact I.
Defined.

(** A run of C4: an instance is initialised and unmounted, the route is
    mounted again, and the new instance is invoked. *)
Lemma fresh_instance_calls_init_witness :
  let tr0 := [Route.Mount; Route.Invoke 0; Route.Invoke 0; Route.Unmount 0] in
  let s0 := Route.run Route.always_returns tr0 Route.empty_store in
  let s1 := Route.step Route.always_returns s0 Route.Mount in
  let s2 := Route.step Route.always_returns s1 (Route.Invoke 1) in
  Route.next_ref s0 = 1 /\
  Route.init_log s0 = [(0, Route.Returns)] /\
  Route.cells s1 !! 1 = Some false /\
  Route.init_log s2 = [(0, Route.Returns); (1, Route.Returns)] /\
  Route.calls_of 1 s2 = 1 /\
  Route.cells s2 !! 0 = Route.cells s0 !! 0.
Proof.
  intros tr0 s0 s1 s2.
  pose proof (fresh_instance_calls_init Route.always_returns tr0) as H.
  cbv zeta in H. destruct H as (_ & (Hf & _) & (Hl & Hc) & Ho).
  split; [reflexivity|]. split; [reflexivity|].
  split; [exact Hf|]. split; [exact Hl|]. split; [exact Hc|].
  apply Ho. discriminate.
Defined.

(* ===================================================================== *)
(** * What the route renders *)
(* ===================================================================== *)

Section Markup.
Import Route.

(** C5, as stated, fails: the element the route returns has no paragraph.
    It has three elements, a [div], an [h1] and a [canvas], and none of them
    is a [p]. *)
Lemma markup_has_no_paragraph :
  with_tag "p" markup = [] /\
  (tag_of <$> elements markup) = [Some "div"; Some "h1"; Some "canvas"] /\
  ~ (headings markup <> [] /\ with_tag "p" markup <> [] /\
     with_tag "canvas" markup <> []).
Proof.
  split; [reflexivity|]. split; [reflexivity|].
  intros (_ & Hp & _). apply Hp. reflexivity.
Qed.

(** C5, as amended.  Every call of [Index], on first render or on a later
    one and in any store, returns normally with the same element: a [div]
    holding one heading, the [h1], and one [canvas], and nothing else.  The
    canvas has [width] 1200, [height] 600 and [id] ["canvas"], and it is the
    only element of the output with an [id]. *)
Theorem index_renders_heading_and_canvas
    (ib : nat -> completion) (slot : option ref) (s : store) :
  exists view s',
    Index ib slot s = (Normal view, s') /\
    output view = markup /\
    (tag_of <$> elements markup) = [Some "div"; Some "h1"; Some "canvas"] /\
    (exists h, headings markup = [h] /\ tag_of h = Some "h1") /\
    exists canvas,
      with_tag "canvas" markup = [canvas] /\
      attribute "width" canvas = Some (NumAttr 1200) /\
      attribute "height" canvas = Some (NumAttr 600) /\
      attribute "id" canvas = Some (StrAttr "canvas") /\
      with_attribute "id" markup = [canvas].
Proof.
  assert (exists view s', Index ib slot s = (Normal view, s') /\
                          output view = markup) as (view & s' & HI & Ho).
  { destruct slot as [r|]; simpl; eauto. }
  exists view, s'. split; [exact HI|]. split; [exact Ho|].
  split; [reflexivity|]. split.
  - eexists. split; reflexivity.
  - eexists. repeat split; reflexivity.
Qed.

End Markup.


(** C6.  The configuration lists exactly three plugins, in this order: the
    WebAssembly plugin, the Remix compiler plugin, the path-alias resolver;
    and the dev server may serve files from exactly two directories, ["."]
    and ["../core"]. *)
Theorem config_plugins_and_allow_list :
  ViteConfig.plugin_kinds ViteConfig.config =
    [Some ViteConfig.WasmSupport; Some ViteConfig.FrameworkCompiler;
     Some ViteConfig.PathAliasResolver] /\
  (ViteConfig.callee <$> ViteConfig.plugins ViteConfig.config) =
    ["wasm"; "remix"; "tsconfigPaths"] /\
  length (ViteConfig.plugins ViteConfig.config) = 3 /\
  ViteConfig.allow (ViteConfig.fs (ViteConfig.server ViteConfig.config)) =
    ["."; "../core"] /\
  length (ViteConfig.allow (ViteConfig.fs (ViteConfig.server ViteConfig.config)))
    = 2 /\
  NoDup (ViteConfig.allow (ViteConfig.fs (ViteConfig.server ViteConfig.config))).
Proof.
  repeat split; try reflexivity.
  apply (bool_decide_unpack _). vm_compute. exact I.
Qed.

(* ===================================================================== *)
(** * Facts about texts *)
(* ===================================================================== *)

Section TextFacts.
Import Make.

Lemma string_app_assoc (a b c : string) : (a +:+ b) +:+ c = a +:+ (b +:+ c).
Proof.
  induction a as [|x a IH]; [reflexivity|].
  change (String x a +:+ ?y) with (String x (a +:+ y)).
  change (String x (a +:+ b) +:+ c) with (String x ((a +:+ b) +:+ c)).
  rewrite IH. reflexivity.
Qed.

Lemma string_app_nil_r (a : string) : a +:+ EmptyString = a.
Proof.
  induction a as [|x a IH]; [reflexivity|].
  change (String x a +:+ ?y) with (String x (a +:+ y)).
  rewrite IH. reflexivity.
Qed.

Lemma rev_app_rev_app (t a b : string) :
  String.rev_app (String.rev_app t a) b = String.rev_app a (t +:+ b).
Proof.
  revert a b. induction t as [|c t IH]; intros a b; [reflexivity|].
  simpl String.rev_app at 2. rewrite IH. reflexivity.
Qed.

Lemma string_rev_rev_app (t a : string) :
  String.rev (String.rev_app t a) = String.rev a +:+ t.
Proof.
  unfold String.rev. rewrite rev_app_rev_app, string_app_nil_r.
  revert t. induction a as [|c a IH]; intros t; [reflexivity|].
  simpl String.rev_app. rewrite IH.
  rewrite (IH (String c EmptyString)), string_app_assoc. reflexivity.
Qed.

Lemma string_rev_involutive (t : string) : String.rev (String.rev t) = t.
Proof. unfold String.rev at 2. apply string_rev_rev_app. Qed.

Lemma string_rev_cons c (s : string) :
  String.rev (String c s) = String.rev s +:+ String c EmptyString.
Proof.
  change (String.rev (String c s))
    with (String.rev_app s (String c EmptyString)).
  rewrite <- (string_rev_involutive s) at 1.
  change (String.rev (String.rev s))
    with (String.rev_app (String.rev s) EmptyString).
  rewrite rev_app_rev_app. reflexivity.
Qed.

Lemma free_of_app c (a b : string) :
  free_of c (a +:+ b) = free_of c a && free_of c b.
Proof.
  induction a as [|x a IH]; [reflexivity|].
  change (String x a +:+ b) with (String x (a +:+ b)). simpl.
  rewrite IH, andb_assoc. reflexivity.
Qed.

Lemma free_of_rev_app c (a b : string) :
  free_of c (String.rev_app a b) = free_of c a && free_of c b.
Proof.
  revert b. induction a as [|x a IH]; intros b; [reflexivity|].
  simpl. rewrite IH. simpl.
  destruct (negb (Ascii.eqb x c)), (free_of c a); reflexivity.
Qed.

Lemma free_of_rev c (a : string) : free_of c (String.rev a) = free_of c a.
Proof. unfold String.rev. rewrite free_of_rev_app. apply andb_true_r. Qed.

Lemma all_chars_free p c (w : string) :
  all_chars p w = true -> p c = false -> free_of c w = true.
Proof.
  intros Hw Hc. induction w as [|a r IH]; [reflexivity|].
  simpl in Hw. apply andb_true_iff in Hw as [Ha Hr]. simpl.
  rewrite (IH Hr), andb_true_r. apply negb_true_iff.
  destruct (Ascii.eqb a c) eqn:E; [|reflexivity].
  apply Ascii.eqb_eq in E. congruence.
Qed.

(** ** Version texts *)

Lemma tag_text_free c w :
  tag_text w = true -> tag_char c = false -> free_of c w = true.
Proof. apply all_chars_free. Qed.

Lemma tag_char_no_space c : tag_char c = true -> Ascii.is_space c = false.
Proof.
  destruct c as [[] [] [] [] [] [] [] []]; vm_compute;
    (reflexivity || discriminate).
Qed.

Lemma skip_space_tag w : tag_text w = true -> skip_space w = w.
Proof.
  destruct w as [|c r]; [reflexivity|]. simpl. intros H.
  apply andb_true_iff in H as [Hc _].
  rewrite (tag_char_no_space _ Hc). reflexivity.
Qed.

Lemma without_cr_free l :
  free_of carriage_return l = true -> without_cr l = l.
Proof.
  intros H. unfold without_cr. rewrite <- free_of_rev in H.
  destruct (String.rev l) as [|c r]; [reflexivity|].
  simpl in H. apply andb_true_iff in H as [Hc _].
  apply negb_true_iff in Hc.
  change (ascii_of_nat 13) with carriage_return. rewrite Hc. reflexivity.
Qed.

Lemma backslashes_free s : free_of "\" s = true -> backslashes s = 0.
Proof.
  destruct s as [|c r]; [reflexivity|]. simpl. intros H.
  apply andb_true_iff in H as [Hc _]. apply negb_true_iff in Hc.
  rewrite Hc. reflexivity.
Qed.

(** A text without [#] and [$] holds no comment. *)
Lemma uncomment_plain before w :
  free_of "#" w = true -> free_of "$" w = true ->
  uncomment Outside before w = String.rev before +:+ w.
Proof.
  revert before. induction w as [|a r IH]; intros before Hh Hd.
  - simpl. rewrite string_app_nil_r. reflexivity.
  - simpl in Hh, Hd.
    apply andb_true_iff in Hh as [Hh Hhr]. apply negb_true_iff in Hh.
    apply andb_true_iff in Hd as [Hd Hdr]. apply negb_true_iff in Hd.
    change (uncomment Outside before (String a r))
      with (if Ascii.eqb a "$" then uncomment Dollar (String a before) r
            else if Ascii.eqb a "#" then
              let k := backslashes before in
              let kept := drop_chars (k - Nat.div2 k) before in
              if Nat.eqb k 0 then String.rev before
              else if Nat.even k then String.rev kept
              else uncomment Outside (String a kept) r
            else uncomment Outside (String a before) r).
    rewrite Hh, Hd, (IH _ Hhr Hdr), string_rev_cons, string_app_assoc.
    reflexivity.
Qed.

(** In a text that holds no [$] and no backslash before its first [#], the
    comment starts at that [#]. *)
Lemma uncomment_to_hash before a rest :
  free_of "#" a = true -> free_of "$" a = true -> free_of "\" a = true ->
  free_of "\" before = true ->
  uncomment Outside before (a +:+ String "#" rest) = String.rev before +:+ a.
Proof.
  revert before. induction a as [|c a IH]; intros before Hh Hd Hb Hbefore.
  - change (EmptyString +:+ ?x) with x.
    change (uncomment Outside before (String "#" rest))
      with (let k := backslashes before in
            let kept := drop_chars (k - Nat.div2 k) before in
            if Nat.eqb k 0 then String.rev before
            else if Nat.even k then String.rev kept
            else uncomment Outside (String "#" kept) rest).
    cbv zeta. rewrite (backslashes_free _ Hbefore), string_app_nil_r.
    reflexivity.
  - simpl in Hh, Hd, Hb.
    apply andb_true_iff in Hh as [Hh Hhr]. apply negb_true_iff in Hh.
    apply andb_true_iff in Hd as [Hd Hdr]. apply negb_true_iff in Hd.
    apply andb_true_iff in Hb as [Hb Hbr].
    change (String c a +:+ ?x) with (String c (a +:+ x)).
    change (uncomment Outside before (String c ?x))
      with (if Ascii.eqb c "$" then uncomment Dollar (String c before) x
            else if Ascii.eqb c "#" then
              let k := backslashes before in
              let kept := drop_chars (k - Nat.div2 k) before in
              if Nat.eqb k 0 then String.rev before
              else if Nat.even k then String.rev kept
              else uncomment Outside (String c kept) x
            else uncomment Outside (String c before) x).
    rewrite Hh, Hd, (IH _ Hhr Hdr Hbr), string_rev_cons, string_app_assoc;
      [reflexivity|].
    simpl. rewrite Hb, Hbefore. reflexivity.
Qed.

(** The value of [name = w], where [w] follows the blank after the [=]. *)
Lemma value_text_tag w : tag_text w = true -> value_text (String " " w) = w.
Proof.
  intros H. unfold value_text, strip_comment.
  rewrite uncomment_plain
    by (simpl; rewrite (tag_text_free _ _ H); reflexivity).
  change (String.rev EmptyString +:+ String " " w) with (String " " w).
  change (skip_space (String " " w)) with (skip_space w).
  apply skip_space_tag, H.
Qed.

Lemma value_text_hash a rest :
  tag_text a = true ->
  value_text (String " " (a +:+ String "#" rest)) = a.
Proof.
  intros H. unfold value_text, strip_comment.
  change (String " " (a +:+ String "#" rest))
    with (String " " a +:+ String "#" rest).
  rewrite uncomment_to_hash;
    try (simpl; rewrite (tag_text_free _ _ H); reflexivity); [|reflexivity].
  change (String.rev EmptyString +:+ String " " a) with (String " " a).
  change (skip_space (String " " a)) with (skip_space a).
  apply skip_space_tag, H.
Qed.

End TextFacts.

(* ===================================================================== *)
(** * Properties of the Makefile *)
(* ===================================================================== *)

Section MakeFuel.
Import Make.

Variable sh : string -> sh_result.
Variable file_exists : string -> bool.
Variable dotenv : option (list (string * string)).

#[local] Abbreviation expand := (Make.expand sh file_exists dotenv).

(** ** More fuel changes no result *)

Lemma value_of_mono f g vs name r :
  refines f g -> value_of f vs name = Some r -> value_of g vs name = Some r.
Proof.
  intros H. unfold value_of.
  destruct (lookup_var name vs) as [[[|] v]|]; auto.
Qed.

Lemma eval_text_mono f g vs line r :
  refines f g -> eval_text f vs line = Some r -> eval_text g vs line = Some r.
Proof.
  intros H. unfold eval_text.
  destruct (parse_assignment line) as [[[name [|]] raw]|]; auto.
  destruct (f vs raw) as [[v vs']|] eqn:E; simpl; [|discriminate].
  apply H in E. rewrite E. simpl. auto.
Qed.

Lemma reference_mono f g vs body r :
  refines f g ->
  reference sh file_exists dotenv f vs body = Some r ->
  reference sh file_exists dotenv g vs body = Some r.
Proof.
  intros H. unfold reference.
  destruct (call_of body) as [[fn arg]|].
  - destruct (f vs arg) as [[a vs']|] eqn:E; simpl; [|discriminate].
    apply H in E. rewrite E. simpl.
    destruct (String.eqb fn "eval"); [|auto].
    destruct (eval_text f vs' a) as [vs''|] eqn:E2; simpl; [|discriminate].
    rewrite (eval_text_mono f g _ _ _ H E2). simpl. auto.
  - destruct (f vs body) as [[name vs']|] eqn:E; simpl; [|discriminate].
    apply H in E. rewrite E. simpl. apply value_of_mono, H.
Qed.

Lemma followed_by_mono f g first first' rest r :
  refines f g ->
  (forall x, first = Some x -> first' = Some x) ->
  followed_by f first rest = Some r -> followed_by g first' rest = Some r.
Proof.
  intros H Hfirst. unfold followed_by.
  destruct first as [[v vs]|]; simpl; [|discriminate].
  rewrite (Hfirst _ eq_refl). simpl.
  destruct (f vs rest) as [[t vs']|] eqn:E; simpl; [|discriminate].
  apply H in E. rewrite E. simpl. auto.
Qed.

Lemma expand_step_mono f g :
  refines f g ->
  refines (expand_step sh file_exists dotenv f)
          (expand_step sh file_exists dotenv g).
Proof.
  intros H vs s r. unfold expand_step.
  assert (forall a t,
    (f vs t ≫= (fun '(t, vs) => Some (String a t, vs))) = Some r ->
    (g vs t ≫= (fun '(t, vs) => Some (String a t, vs))) = Some r) as Hplain.
  { intros a t. destruct (f vs t) as [[t' vs']|] eqn:E; simpl; [|discriminate].
    apply H in E. rewrite E. simpl. auto. }
  assert (forall o c t,
    (until_close o c 0 t ≫= (fun '(body, rest) =>
       followed_by f (reference sh file_exists dotenv f vs body) rest)) = Some r ->
    (until_close o c 0 t ≫= (fun '(body, rest) =>
       followed_by g (reference sh file_exists dotenv g vs body) rest)) = Some r)
    as Href.
  { intros o c t. destruct (until_close o c 0 t) as [[body rest]|]; simpl;
      [|discriminate].
    apply followed_by_mono; [exact H|].
    intros x. apply reference_mono, H. }
  destruct s as [|a t]; [auto|].
  destruct (decide (a = "$"%char)) as [->|Ha].
  - destruct t as [|b t']; [auto|].
    destruct (decide (b = "$"%char)) as [->|Hb1]; [apply Hplain|].
    destruct (decide (b = "("%char)) as [->|Hb2]; [apply Href|].
    destruct (decide (b = "{"%char)) as [->|Hb3]; [apply Href|].
    assert (forall X Y Z W : option (string * variables),
      match b with
      | "$"%char => X | "("%char => Y | "{"%char => Z | _ => W
      end = W) as Hother.
    { intros. destruct b as [[] [] [] [] [] [] [] []]; congruence. }
    rewrite !Hother.
    apply followed_by_mono; [exact H|].
    intros x. apply value_of_mono, H.
  - assert (forall X Y : option (string * variables),
      match a with "$"%char => X | _ => Y end = Y) as Hother.
    { intros. destruct a as [[] [] [] [] [] [] [] []]; congruence. }
    intros Hr.
    assert ((f vs t ≫= (fun '(t, vs) => Some (String a t, vs))) = Some r)
      as Hr'.
    { revert Hr. destruct a as [[] [] [] [] [] [] [] []];
        try congruence; auto. }
    apply Hplain in Hr'. revert Hr'.
    destruct a as [[] [] [] [] [] [] [] []]; try congruence; auto.
Qed.

Lemma expand_mono fuel fuel' :
  fuel <= fuel' -> refines (expand fuel) (expand fuel').
Proof.
  revert fuel'. induction fuel as [|fuel IH]; intros fuel' Hle.
  - intros vs s r H. discriminate.
  - destruct fuel' as [|fuel']; [lia|]. simpl.
    apply expand_step_mono, IH. lia.
Qed.

(** In a chain of steps that succeeded with [fuel], every expansion gives
    the same result with [fuel']. *)
Ltac more_fuel Hle H :=
  repeat match type of H with
  | context [Make.expand sh file_exists dotenv ?fuel ?vs ?s] =>
      let E := fresh "E" in
      destruct (Make.expand sh file_exists dotenv fuel vs s)
        as [[? ?]|] eqn:E;
      [rewrite (expand_mono _ _ Hle _ _ _ E); simpl in H |- *
      |simpl in H; discriminate H]
  end.

Lemma read_line_mono fuel fuel' r line r' :
  fuel <= fuel' ->
  read_line sh file_exists dotenv fuel r line = Some r' ->
  read_line sh file_exists dotenv fuel' r line = Some r'.
Proof.
  intros Hle H. unfold read_line in *.
  destruct (negb (skipped r =? 0)); [exact H|].
  destruct (starts_with tab line); [exact H|].
  destruct (String.eqb (trim (strip_comment line)) EmptyString); [exact H|].
  destruct (starts_with "ifneq " (trim (strip_comment line))).
  { destruct (parse_condition _) as [[a b]|]; simpl in H |- *; [|exact H].
    more_fuel Hle H. exact H. }
  destruct (String.eqb (trim (strip_comment line)) "endif"); [exact H|].
  destruct (starts_with "include " (trim (strip_comment line))).
  { more_fuel Hle H. exact H. }
  destruct (parse_assignment line) as [[[name [|]] raw]|].
  - more_fuel Hle H. exact H.
  - exact H.
  - destruct (break_at ":" _) as [[ts ps]|]; simpl in H |- *; [|exact H].
    more_fuel Hle H. exact H.
Qed.

Lemma read_lines_mono fuel fuel' lines r r' :
  fuel <= fuel' ->
  read_lines sh file_exists dotenv fuel r lines = Some r' ->
  read_lines sh file_exists dotenv fuel' r lines = Some r'.
Proof.
  intros Hle. revert r. induction lines as [|l lines IH]; intros r H.
  - exact H.
  - simpl in *.
    destruct (read_line sh file_exists dotenv fuel r l) as [r1|] eqn:E;
      simpl in H; [|discriminate].
    rewrite (read_line_mono _ _ _ _ _ Hle E). simpl. apply IH, H.
Qed.

Lemma expand_recipe_mono fuel fuel' vs lines r :
  fuel <= fuel' ->
  expand_recipe sh file_exists dotenv fuel vs lines = Some r ->
  expand_recipe sh file_exists dotenv fuel' vs lines = Some r.
Proof.
  intros Hle. revert vs r. induction lines as [|l lines IH]; intros vs r H.
  - exact H.
  - simpl in *. more_fuel Hle H.
    destruct (expand_recipe sh file_exists dotenv fuel _ lines)
      as [[rest vs']|] eqn:E2; simpl in H; [|discriminate].
    rewrite (IH _ _ E2). simpl. exact H.
Qed.

Lemma update_mono fuel fuel' d t o o' :
  fuel <= fuel' ->
  update sh file_exists dotenv fuel d t o = Some o' ->
  update sh file_exists dotenv fuel' d t o = Some o'.
Proof.
  intros Hle H. unfold update in *.
  destruct (find_rule t d) as [r|]; [|exact H].
  destruct (prerequisites r); [|exact H].
  destruct (is_phony t d || negb (exists_file file_exists dotenv t));
    [|exact H].
  destruct (expand_recipe sh file_exists dotenv fuel _ _) as [[ls vs]|] eqn:E;
    simpl in H; [|discriminate].
  rewrite (expand_recipe_mono _ _ _ _ _ Hle E). exact H.
Qed.

Lemma update_goals_mono fuel fuel' d goals o o' :
  fuel <= fuel' ->
  update_goals sh file_exists dotenv fuel d goals o = Some o' ->
  update_goals sh file_exists dotenv fuel' d goals o = Some o'.
Proof.
  intros Hle. revert o. induction goals as [|g goals IH]; intros o H.
  - exact H.
  - simpl in *.
    destruct (update sh file_exists dotenv fuel d g o) as [o1|] eqn:E;
      simpl in H; [|discriminate].
    rewrite (update_mono _ _ _ _ _ _ Hle E). simpl.
    destruct (exit_status o1 =? make_ok); [apply IH, H|exact H].
Qed.

Lemma goals_of_mono fuel fuel' d arguments goals :
  fuel <= fuel' ->
  goals_of sh file_exists dotenv fuel d arguments = Some goals ->
  goals_of sh file_exists dotenv fuel' d arguments = Some goals.
Proof.
  intros Hle H. unfold goals_of, default_goal in *.
  destruct arguments; [|exact H].
  destruct (lookup_var ".DEFAULT_GOAL" (vars d)) as [[[|] g]|]; [exact H| |exact H].
  more_fuel Hle H. exact H.
Qed.

(** A run of make that ends with some fuel ends in the same way with
    more. *)
Lemma make_mono fuel fuel' arguments o :
  fuel <= fuel' ->
  make sh file_exists dotenv fuel arguments = Some o ->
  make sh file_exists dotenv fuel' arguments = Some o.
Proof.
  intros Hle H. unfold make, read_makefile in *.
  destruct (read_lines sh file_exists dotenv fuel start text) as [r|] eqn:E;
    simpl in H; [|discriminate].
  rewrite (read_lines_mono _ _ _ _ _ Hle E). simpl.
  destruct (goals_of sh file_exists dotenv fuel (db r) arguments)
    as [goals|] eqn:G; simpl in H; [|discriminate].
  rewrite (goals_of_mono _ _ _ _ _ Hle G). simpl.
  apply (update_goals_mono _ _ _ _ _ _ Hle H).
Qed.

End MakeFuel.

Section MakeRun.
Import Make.

Variable sh : string -> sh_result.
Variable file_exists : string -> bool.
Variable dotenv : option (list (string * string)).

#[local] Abbreviation expand := (Make.expand sh file_exists dotenv).
#[local] Abbreviation make := (Make.make sh file_exists dotenv).

(** ** Reading *)

Lemma lookup_var_define name n f v vs :
  lookup_var name (define n f v vs) =
    if String.eqb n name then Some (f, v) else lookup_var name vs.
Proof. reflexivity. Qed.

Lemma lookup_var_last_definition name defs vs :
  lookup_var name
    (foldl (fun vs d => define (fst d) Recursive (snd d) vs) vs defs) =
  match last_definition name defs with
  | Some v => Some (Recursive, v)
  | None => lookup_var name vs
  end.
Proof.
  revert vs. induction defs as [|[n v] defs IH]; intros vs; [reflexivity|].
  simpl foldl. rewrite IH. simpl last_definition.
  destruct (last_definition name defs); [reflexivity|].
  rewrite lookup_var_define. simpl fst. simpl snd.
  destruct (String.eqb n name); reflexivity.
Qed.

Lemma last_definition_elem name defs v :
  last_definition name defs = Some v -> In (name, v) defs.
Proof.
  induction defs as [|[n w] defs IH]; [discriminate|]. simpl.
  destruct (last_definition name defs) as [u|].
  - intros [= <-]. right. apply IH. reflexivity.
  - destruct (String.eqb n name) eqn:E; [|discriminate].
    apply String.eqb_eq in E as ->. intros [= <-]. left. reflexivity.
Qed.

Lemma last_definition_ordinary name defs :
  forallb ordinary_definition defs = true ->
  ordinary_name name = false ->
  last_definition name defs = None.
Proof.
  intros Hdefs Hname.
  destruct (last_definition name defs) as [v|] eqn:E; [|reflexivity].
  apply last_definition_elem in E.
  apply (proj1 (forallb_forall _ _) Hdefs) in E.
  unfold ordinary_definition in E. simpl in E. rewrite Hname in E.
  discriminate.
Qed.

Lemma supported_of_ordinary :
  dotenv_ordinary dotenv = true -> dotenv_supported dotenv = true.
Proof.
  unfold dotenv_ordinary, dotenv_supported.
  destruct dotenv as [defs|]; [|reflexivity]. intros H.
  apply forallb_forall. intros d Hd.
  apply (proj1 (forallb_forall _ _) H) in Hd.
  unfold supported_definition. rewrite Hd. reflexivity.
Qed.

Lemma goal_set_after_include defs :
  forallb supported_definition defs = true ->
  goal_unset
    (foldl (fun vs d => define (fst d) Recursive (snd d) vs)
       (define "MAKEFILE_LIST" Simple "Makefile .env" base_vars) defs) = false.
Proof.
  intros Hs. unfold goal_unset. rewrite lookup_var_last_definition.
  destruct (last_definition ".DEFAULT_GOAL" defs) as [v|] eqn:E; [|reflexivity].
  apply last_definition_elem in E.
  apply (proj1 (forallb_forall _ _) Hs) in E.
  destruct v as [|c v]; [discriminate E|reflexivity].
Qed.

(** Reading the Makefile, with or without [.env]. *)
Lemma read_makefile_text fuel :
  enough_fuel <= fuel ->
  dotenv_supported dotenv = true ->
  read_makefile sh file_exists dotenv fuel text = Some (read_database dotenv).
Proof.
  intros Hle Hs.
  assert (read_lines sh file_exists dotenv enough_fuel start text =
          Some {| db := read_database dotenv; skipped := 0; in_rule := true |})
    as H.
  { destruct dotenv as [defs|]; [|vm_compute; reflexivity].
    simpl in Hs. pose proof (goal_set_after_include defs Hs) as Hg.
    vm_compute. vm_compute in Hs. vm_compute in Hg.
    rewrite Hs, !Hg. reflexivity. }
  unfold read_makefile.
  rewrite (read_lines_mono sh file_exists dotenv _ _ _ _ _ Hle H).
  reflexivity.
Qed.

Lemma lookup_read_vars :
  dotenv_ordinary dotenv = true ->
  lookup_var ".DEFAULT_GOAL" (read_vars dotenv) = Some (Simple, "help") /\
  lookup_var "COMMAND_LIST" (read_vars dotenv) = Some (Simple, "Makefile") /\
  lookup_var "MAKEFILE_LIST" (read_vars dotenv) =
    Some (Simple, match dotenv with
                  | Some _ => "Makefile .env"
                  | None => "Makefile"
                  end).
Proof.
  unfold dotenv_ordinary, read_vars. destruct dotenv as [defs|].
  - intros H.
    rewrite !lookup_var_last_definition.
    rewrite !(last_definition_ordinary _ _ H) by reflexivity.
    split; [reflexivity|]. split; reflexivity.
  - intros _. split; [reflexivity|]. split; reflexivity.
Qed.

Lemma make_goals fuel g rest :
  enough_fuel <= fuel ->
  dotenv_supported dotenv = true ->
  make fuel (g :: rest) =
    update_goals sh file_exists dotenv fuel (read_database dotenv) (g :: rest)
      (started (read_vars dotenv)).
Proof.
  intros Hle Hs. unfold Make.make. rewrite (read_makefile_text _ Hle Hs).
  reflexivity.
Qed.

(** ** Expanding the [help] recipe *)

Lemma expand_step_plain again vs a r :
  a <> "$"%char ->
  expand_step sh file_exists dotenv again vs (String a r) =
  again vs r ≫= (fun '(t, vs) => Some (String a t, vs)).
Proof.
  intros Ha. destruct a as [[] [] [] [] [] [] [] []];
    try reflexivity; congruence.
Qed.

(** Text without a dollar sign expands to itself. *)
Lemma expand_prefix p fuel vs s :
  dollar_free p = true ->
  expand (String.length p + fuel) vs (p +:+ s) =
  expand fuel vs s ≫= (fun '(t, vs) => Some (p +:+ t, vs)).
Proof.
  induction p as [|a p IH]; intros H.
  - change (EmptyString +:+ s) with s. simpl.
    destruct (expand fuel vs s) as [[t vs']|]; reflexivity.
  - simpl in H. apply andb_true_iff in H as [Ha Hp].
    apply negb_true_iff, Ascii.eqb_neq in Ha.
    change (expand (String.length (String a p) + fuel))
      with (expand_step sh file_exists dotenv
              (expand (String.length p + fuel))).
    change (String a p +:+ s) with (String a (p +:+ s)).
    rewrite (expand_step_plain _ _ _ _ Ha), (IH Hp).
    destruct (expand fuel vs s) as [[t vs']|]; reflexivity.
Qed.

Lemma expand_plain fuel vs g :
  dollar_free g = true ->
  String.length g < fuel ->
  expand fuel vs g = Some (g, vs).
Proof.
  intros Hg Hfuel.
  pose proof (expand_prefix g 1 vs EmptyString Hg) as H.
  rewrite string_app_nil_r in H. simpl in H.
  rewrite string_app_nil_r in H.
  apply (expand_mono sh file_exists dotenv (String.length g + 1) fuel);
    [lia|exact H].
Qed.

Lemma expand_dollars fuel vs s :
  expand (S fuel) vs ("$$" +:+ s) =
  expand fuel vs s ≫= (fun '(t, vs) => Some (String "$" t, vs)).
Proof. reflexivity. Qed.

(** A reference [${name}] to a simply expanded variable. *)
Lemma expand_reference fuel vs name rest v :
  until_close "{" "}" 0 (name +:+ "}" +:+ rest) = Some (name, rest) ->
  call_of name = None ->
  expand fuel vs name = Some (name, vs) ->
  lookup_var name vs = Some (Simple, v) ->
  expand (S fuel) vs ("${" +:+ name +:+ "}" +:+ rest) =
  expand fuel vs rest ≫= (fun '(t, vs) => Some (join v t, vs)).
Proof.
  intros Hclose Hcall Hname Hvar.
  change (expand (S fuel)) with (expand_step sh file_exists dotenv (expand fuel)).
  change ("${" +:+ name +:+ "}" +:+ rest)
    with (String "$" (String "{" (name +:+ "}" +:+ rest))).
  unfold expand_step. rewrite Hclose. simpl.
  unfold followed_by, reference. rewrite Hcall, Hname. simpl.
  unfold value_of. rewrite Hvar. reflexivity.
Qed.

Lemma expand_help_recipe fuel vs :
  enough_fuel <= fuel ->
  lookup_var "COMMAND_LIST" vs = Some (Simple, "Makefile") ->
  expand_recipe sh file_exists dotenv fuel vs (recipe help_rule) =
  Some (["@" +:+ help_command], vs).
Proof.
  intros Hle Hvar.
  set (pre1 := "@grep -E '^[a-zA-Z].*:\s##\s.*").
  set (pre2 := "' ").
  set (post := " |sed 's/\\//g' |awk 'BEGIN {FS = " +:+ dq +:+ ": ## "
               +:+ dq +:+ "}; {printf " +:+ dq
               +:+ "\033[36m%-30s\033[0m %s\n" +:+ dq +:+ ", $$1, $$2}'").
  set (f0 := String.length pre1 + S (String.length pre2 + S 150)).
  assert (expand f0 vs
            (pre1 +:+ "$$" +:+ pre2 +:+ "${" +:+ "COMMAND_LIST" +:+ "}" +:+ post)
          = Some ("@" +:+ help_command, vs)) as H.
  { unfold f0.
    rewrite expand_prefix by reflexivity.
    rewrite expand_dollars.
    rewrite expand_prefix by reflexivity.
    rewrite (expand_reference 150 vs "COMMAND_LIST" post "Makefile");
      [|reflexivity|reflexivity|vm_compute; reflexivity|exact Hvar].
    assert (expand 150 vs post =
            Some (" |sed 's/\\//g' |awk 'BEGIN {FS = " +:+ dq +:+ ": ## "
                  +:+ dq +:+ "}; {printf " +:+ dq
                  +:+ "\033[36m%-30s\033[0m %s\n" +:+ dq +:+ ", $1, $2}'",
                  vs)) as -> by (vm_compute; reflexivity).
    vm_compute. reflexivity. }
  assert (f0 <= fuel) as Hf by (vm_compute in f0; unfold enough_fuel in Hle;
                                subst f0; lia).
  apply (expand_mono sh file_exists dotenv _ _ Hf) in H.
  change (recipe _) with
    [pre1 +:+ "$$" +:+ pre2 +:+ "${" +:+ "COMMAND_LIST" +:+ "}" +:+ post].
  simpl. rewrite H. reflexivity.
Qed.

(** ** Running a recipe of one silent command *)

Lemma run_single_silent command o :
  command <> EmptyString ->
  command_flags false false ("@" +:+ command) = (true, false, command) ->
  run_commands sh ["@" +:+ command] o =
    {| exit_status := if status (sh command) =? 0 then exit_status o
                      else make_failed;
       printed := printed o ++ stdout (sh command);
       executed := executed o ++ [command];
       final_vars := final_vars o |}.
Proof.
  intros Hne Hflags. unfold run_commands. rewrite Hflags.
  destruct (String.eqb command EmptyString) eqn:E.
  { apply String.eqb_eq in E. contradiction. }
  destruct (status (sh command) =? 0); reflexivity.
Qed.

(** A goal for which a command was started gets no message of make. *)
Lemma report_started phony_goal r before after :
  length (executed after) = S (length (executed before)) ->
  report phony_goal r before after = after.
Proof.
  intros H. unfold report. rewrite H.
  assert ((S (length (executed before)) =? length (executed before)) = false)
    as -> by (apply Nat.eqb_neq; lia).
  rewrite andb_false_r. reflexivity.
Qed.

Lemma update_single fuel d t r command o vs :
  find_rule t d = Some r ->
  prerequisites r = [] ->
  is_phony t d = true ->
  expand_recipe sh file_exists dotenv fuel (final_vars o) (recipe r) =
    Some (["@" +:+ command], vs) ->
  command <> EmptyString ->
  command_flags false false ("@" +:+ command) = (true, false, command) ->
  update_goals sh file_exists dotenv fuel d [t] o =
    Some {| exit_status := if status (sh command) =? 0 then exit_status o
                           else make_failed;
            printed := printed o ++ stdout (sh command);
            executed := executed o ++ [command];
            final_vars := vs |}.
Proof.
  intros Hrule Hpre Hphony Hexp Hne Hflags.
  assert (update sh file_exists dotenv fuel d t o =
          Some (report true r o
                  (run_commands sh ["@" +:+ command]
                     {| exit_status := exit_status o; printed := printed o;
                        executed := executed o; final_vars := vs |}))) as Hup.
  { unfold update. rewrite Hrule, Hpre, Hphony, Hexp. reflexivity. }
  unfold update_goals. rewrite Hup, (run_single_silent _ _ Hne Hflags).
  rewrite report_started
    by (simpl; rewrite length_app; simpl; lia).
  simpl. destruct (_ =? make_ok); reflexivity.
Qed.

(** [make] and [make help]: the pipeline is handed to the shell, silently;
    make succeeds when the pipeline does and fails otherwise. *)
Lemma make_help_run fuel arguments :
  enough_fuel <= fuel ->
  dotenv_ordinary dotenv = true ->
  arguments = [] \/ arguments = ["help"] ->
  make fuel arguments =
    Some {| exit_status := if status (sh help_command) =? 0 then make_ok
                           else make_failed;
            printed := stdout (sh help_command);
            executed := [help_command];
            final_vars := read_vars dotenv |}.
Proof.
  intros Hle Hordinary Hargs.
  destruct (lookup_read_vars Hordinary) as (Hgoal & Hlist & _).
  unfold Make.make.
  rewrite (read_makefile_text _ Hle (supported_of_ordinary Hordinary)).
  simpl.
  assert (goals_of sh file_exists dotenv fuel (read_database dotenv) arguments
          = Some ["help"]) as ->.
  { destruct Hargs as [-> | ->]; [|reflexivity].
    unfold goals_of, default_goal. simpl vars. rewrite Hgoal. reflexivity. }
  simpl.
  apply (update_single fuel (read_database dotenv) "help" help_rule
           help_command
           (started (read_vars dotenv)) (read_vars dotenv)).
  - reflexivity.
  - reflexivity.
  - reflexivity.
  - apply (expand_help_recipe fuel (read_vars dotenv) Hle Hlist).
  - discriminate.
  - reflexivity.
Qed.

(** [make build-core] *)
Lemma make_build_run fuel :
  enough_fuel <= fuel ->
  dotenv_supported dotenv = true ->
  make fuel ["build-core"] =
    Some {| exit_status := if status (sh build_command) =? 0 then make_ok
                           else make_failed;
            printed := stdout (sh build_command);
            executed := [build_command];
            final_vars := read_vars dotenv |}.
Proof.
  intros Hle Hs.
  rewrite (make_goals _ _ _ Hle Hs).
  apply (update_single fuel (read_database dotenv) "build-core" build_rule
           build_command
           (started (read_vars dotenv)) (read_vars dotenv)).
  - reflexivity.
  - reflexivity.
  - reflexivity.
  - apply (expand_recipe_mono sh file_exists dotenv enough_fuel fuel _ _ _ Hle).
    vm_compute. reflexivity.
  - discriminate.
  - reflexivity.
Qed.

(** [make get_git_tag]: no command of the recipe is started, so make
    reports the goal up to date. *)
Lemma make_tag_run fuel :
  enough_fuel <= fuel ->
  dotenv_supported dotenv = true ->
  make fuel ["get_git_tag"] =
    Some {| exit_status := make_ok;
            printed := [up_to_date_message "get_git_tag"];
            executed := [];
            final_vars :=
              if file_exists "get_git_tag" then read_vars dotenv
              else
                define "git_ver_verbose" Recursive
                  (value_text (String " " (shell_function sh describe_verbose)))
                  (define "git_ver" Recursive
                     (value_text
                        (String " " (shell_function sh describe_abbreviated)))
                     (read_vars dotenv)) |}.
Proof.
  intros Hle Hs.
  rewrite (make_goals _ _ _ Hle Hs).
  apply (update_goals_mono sh file_exists dotenv enough_fuel fuel _ _ _ _ Hle).
  unfold read_database. generalize (read_vars dotenv). intros vs.
  destruct (file_exists "get_git_tag") eqn:E;
    vm_compute; rewrite E; reflexivity.
Qed.

(** What the two variables get from a command that writes a version text
    or nothing. *)
Lemma shell_function_line command w :
  stdout (sh command) = [w] ->
  free_of carriage_return w = true ->
  shell_function sh command = w.
Proof.
  intros Hout Hcr. unfold shell_function. rewrite Hout.
  rewrite fmap_cons, fmap_nil, (without_cr_free _ Hcr). simpl.
  destruct (String.eqb w EmptyString) eqn:E; [|reflexivity].
  apply String.eqb_eq in E as ->. reflexivity.
Qed.

Lemma tag_output_value command :
  tag_output (stdout (sh command)) = true ->
  value_text (String " " (shell_function sh command)) =
    tag_of (stdout (sh command)).
Proof.
  intros H. destruct (stdout (sh command)) as [|w [|w' ls]] eqn:E;
    [| |discriminate].
  - unfold shell_function. rewrite E. reflexivity.
  - simpl in H.
    rewrite (shell_function_line _ _ E) by (apply tag_text_free; auto).
    apply value_text_tag, H.
Qed.

(** The pipeline of [help], run by the shell of the model in the directory
    of the Makefile. *)
Lemma posix_help_listing others programs :
  posix_sh (repository_files others) programs help_command =
    Some {| status := 0;
            stdout := [listing_line "build-core" "build core"] |}.
Proof. vm_compute. reflexivity. Qed.

(** ** The claims about the Makefile *)

(** C7, as amended.  With enough fuel, and with no [.env] or one of
    ordinary definitions only: the goal of [make] without arguments is
    [help], so that [make] does what [make help] does; it hands the listing
    pipeline to the shell, once and without echoing it, prints what the
    pipeline writes, and exits with 0 when the status of the pipeline is 0
    and with the failure status of make otherwise.  Run by the shell of the
    model in the directory of the Makefile, the pipeline succeeds and
    writes one line: the documented target [build-core] with its
    description. *)
Theorem help_is_the_default_goal fuel :
  enough_fuel <= fuel ->
  dotenv_ordinary dotenv = true ->
  read_makefile sh file_exists dotenv fuel text = Some (read_database dotenv) /\
  default_goal sh file_exists dotenv fuel (read_database dotenv) =
    Some "help" /\
  make fuel [] = make fuel ["help"] /\
  make fuel [] =
    Some {| exit_status := if status (sh help_command) =? 0 then make_ok
                           else make_failed;
            printed := stdout (sh help_command);
            executed := [help_command];
            final_vars := read_vars dotenv |} /\
  forall others programs,
    posix_sh (repository_files others) programs help_command =
      Some (sh help_command) ->
    make fuel [] =
      Some {| exit_status := make_ok;
              printed := [listing_line "build-core" "build core"];
              executed := [help_command];
              final_vars := read_vars dotenv |}.
Proof.
  intros Hle Hordinary.
  pose proof (make_help_run fuel [] Hle Hordinary (or_introl eq_refl)) as H0.
  pose proof (make_help_run fuel ["help"] Hle Hordinary (or_intror eq_refl))
    as H1.
  split; [apply read_makefile_text, supported_of_ordinary, Hordinary; exact Hle|].
  split.
  { unfold default_goal. simpl vars.
    destruct (lookup_read_vars Hordinary) as [-> _]. reflexivity. }
  split; [rewrite H0, H1; reflexivity|].
  split; [exact H0|].
  intros others programs Hsh. rewrite posix_help_listing in Hsh.
  injection Hsh as Hsh. rewrite H0, <- Hsh. reflexivity.
Qed.

(** C8, as amended.  With enough fuel, with no [.env] or one of ordinary
    definitions only, and with a git that writes for each of the two
    commands one line of version text or nothing: [make get_git_tag] starts
    no command of a recipe and succeeds, and the one line on standard
    output is the message of make that the goal is up to date.  When no
    file named [get_git_tag] exists, the recipe defines two variables and
    nothing else: [git_ver], the text [git describe --tags --dirty
    --abbrev=0] wrote, and [git_ver_verbose], the text
    [git describe --tags --dirty] wrote, both commands run by [$(shell ...)]
    while the recipe is expanded; when such a file exists nothing is
    defined.  The only lines of the Makefile that mention either variable
    are the two lines of this recipe: no other rule uses them. *)
Theorem get_git_tag_only_defines_variables fuel :
  enough_fuel <= fuel ->
  dotenv_ordinary dotenv = true ->
  tag_output (stdout (sh describe_abbreviated)) = true ->
  tag_output (stdout (sh describe_verbose)) = true ->
  read_makefile sh file_exists dotenv fuel text = Some (read_database dotenv) /\
  make fuel ["get_git_tag"] =
    Some {| exit_status := make_ok;
            printed := ["make: 'get_git_tag' is up to date."];
            executed := [];
            final_vars :=
              if file_exists "get_git_tag" then read_vars dotenv
              else
                define "git_ver_verbose" Recursive
                  (tag_of (stdout (sh describe_verbose)))
                  (define "git_ver" Recursive
                     (tag_of (stdout (sh describe_abbreviated)))
                     (read_vars dotenv)) |} /\
  filter (fun l => contains "git_ver" l = true) text =
    (fun l => tab +:+ l) <$> recipe tag_rule /\
  Forall (fun r => target r <> "get_git_tag" ->
            Forall (fun l => contains "git_ver" l = false)
                   (header r :: prerequisites r ++ recipe r))
         read_rules.
Proof.
  intros Hle Hordinary Hshort Hlong.
  pose proof (supported_of_ordinary Hordinary) as Hs.
  split; [apply read_makefile_text; assumption|].
  split.
  { rewrite (make_tag_run _ Hle Hs).
    rewrite (tag_output_value _ Hshort), (tag_output_value _ Hlong).
    reflexivity. }
  split; [vm_compute; reflexivity|].
  constructor; [intros _; repeat constructor|].
  constructor; [intros H; exfalso; apply H; reflexivity|].
  constructor; [intros _; repeat constructor|].
  constructor.
Qed.

(** C9, as amended.  The recipe of [build-core] is one command line,
    [wasm-pack build core --target web].  With enough fuel, and with no
    [.env] or one of ordinary definitions only, [make build-core] hands
    that line to the shell once, without echoing it, whatever files exist
    ([build-core] is phony), and does nothing else: no second attempt,
    nothing after a failure.  The shell of the model runs the program
    [wasm-pack] with the arguments [build], [core], [--target], [web], and
    the status of the command is the exit status of that program.  make
    exits with 0 when that status is 0, and with its own failure status 2
    when it is not. *)
Theorem build_core_runs_wasm_pack_once fuel :
  enough_fuel <= fuel ->
  dotenv_ordinary dotenv = true ->
  read_makefile sh file_exists dotenv fuel text = Some (read_database dotenv) /\
  find_rule "build-core" (read_database dotenv) = Some build_rule /\
  recipe build_rule = ["@" +:+ build_command] /\
  make fuel ["build-core"] =
    Some {| exit_status := if status (sh build_command) =? 0 then make_ok
                           else make_failed;
            printed := stdout (sh build_command);
            executed := [build_command];
            final_vars := read_vars dotenv |} /\
  forall files programs,
    posix_sh files programs build_command =
      Some (programs ["wasm-pack"; "build"; "core"; "--target"; "web"] []).
Proof.
  intros Hle Hordinary.
  pose proof (supported_of_ordinary Hordinary) as Hs.
  split; [apply read_makefile_text; assumption|].
  split; [reflexivity|]. split; [reflexivity|].
  split; [apply make_build_run; assumption|].
  intros files programs. reflexivity.
Qed.

End MakeRun.

(** C10, as amended.  With enough fuel, and with no [.env] or one of
    ordinary definitions only, [make help], run with the shell of the
    model in the directory of the Makefile, succeeds and prints one line
    for each rule whose line carries an annotation [name: ## description],
    and nothing else; the lines grep selects are the lines of those rules.
    Of the three rules [help], [get_git_tag] and [build-core] only
    [build-core] carries one, so the listing is the line of [build-core],
    and neither [help] nor [get_git_tag] occurs in it. *)
Theorem help_lists_annotated_targets
    (others : string -> option (list string))
    (programs : list string -> list string -> Make.sh_result)
    (sh : string -> Make.sh_result)
    (file_exists : string -> bool)
    (dotenv : option (list (string * string))) (fuel : nat) :
  Make.enough_fuel <= fuel ->
  Make.dotenv_ordinary dotenv = true ->
  Make.posix_sh (Make.repository_files others) programs Make.help_command =
    Some (sh Make.help_command) ->
  let d := Make.read_database dotenv in
  exists o,
    Make.read_makefile sh file_exists dotenv fuel Make.text = Some d /\
    Make.make sh file_exists dotenv fuel ["help"] = Some o /\
    Make.exit_status o = Make.make_ok /\
    Make.printed o =
      (fun a => Make.listing_line (fst a) (snd a)) <$> Make.documented d /\
    Make.stdout <$> Make.grep_E (Make.repository_files others)
                      "^[a-zA-Z].*:\s##\s.*$" [Make.makefile_name] [] =
      Some (Make.header <$>
              filter (fun r => is_Some (Make.annotation (Make.header r)))
                     (Make.rules d)) /\
    Make.documented d = [("build-core", "build core")] /\
    (Make.target <$> Make.rules d) = ["help"; "get_git_tag"; "build-core"] /\
    Make.annotation (Make.header Make.help_rule) = None /\
    Make.annotation (Make.header Make.tag_rule) = None /\
    Forall (fun l => Make.contains "help" l = false /\
                     Make.contains "get_git_tag" l = false)
           (Make.printed o).
Proof.
  intros Hle Hordinary Hsh d.
  exists {| Make.exit_status := Make.make_ok;
            Make.printed := [Make.listing_line "build-core" "build core"];
            Make.executed := [Make.help_command];
            Make.final_vars := Make.read_vars dotenv |}.
  split; [apply read_makefile_text;
          [exact Hle|apply supported_of_ordinary, Hordinary]|].
  split.
  { rewrite (make_help_run sh file_exists dotenv fuel ["help"] Hle Hordinary)
      by (right; reflexivity).
    rewrite posix_help_listing in Hsh. injection Hsh as Hsh.
    rewrite <- Hsh. reflexivity. }
  split; [reflexivity|]. split; [reflexivity|].
  split; [vm_compute; reflexivity|].
  split; [reflexivity|]. split; [reflexivity|].
  split; [reflexivity|]. split; [reflexivity|].
  repeat constructor.
Qed.

(** ** Concrete runs of make *)

(** C7, as stated, fails with a [.env] that sets [.DEFAULT_GOAL]: the
    definition is read after the one of the Makefile, and [make] without
    arguments runs the recipe of [build-core] and not the listing. *)
Lemma default_goal_follows_dotenv :
  let dotenv := Some [(".DEFAULT_GOAL", "build-core")] in
  let sh := Make.sample_sh 0 [] in
  let run := Make.make sh Make.no_file dotenv Make.enough_fuel in
  Make.dotenv_ordinary dotenv = false /\
  Make.default_goal sh Make.no_file dotenv Make.enough_fuel
    (Make.read_database dotenv) = Some "build-core" /\
  (Make.executed <$> run []) = Some [Make.build_command] /\
  (Make.executed <$> run ["help"]) = Some [Make.help_command] /\
  run [] <> run ["help"].
Proof.
  vm_compute. split; [reflexivity|]. split; [reflexivity|].
  split; [reflexivity|]. split; [reflexivity|]. discriminate.
Qed.

(** C8, as stated, fails on the output: [make get_git_tag] starts no
    command of the recipe, and make then writes a line, its message that
    the goal is up to date. *)
Lemma get_git_tag_writes_a_message :
  let sh := Make.sample_sh 0 ["v0.1.0-dirty"] in
  let run := Make.make sh Make.no_file None Make.enough_fuel ["get_git_tag"] in
  (Make.executed <$> run) = Some [] /\
  (Make.printed <$> run) = Some ["make: 'get_git_tag' is up to date."] /\
  (Make.printed <$> run) <> Some [].
Proof.
  vm_compute. split; [reflexivity|]. split; [reflexivity|]. discriminate.
Qed.

(** C9, as stated, fails on the exit status.  Let [wasm-pack] exit with 1:
    the command handed to the shell has status 1, and [make build-core]
    exits with 2. *)
Lemma build_core_exit_differs_from_tool_exit :
  let sh := Make.sample_sh 1 [] in
  let run := Make.make sh Make.no_file None Make.enough_fuel ["build-core"] in
  Make.status (Make.tools 1 [] ["wasm-pack"; "build"; "core"; "--target"; "web"] [])
    = 1 /\
  Make.status (sh Make.build_command) = 1 /\
  (Make.executed <$> run) = Some [Make.build_command] /\
  (Make.exit_status <$> run) = Some 2 /\
  (Make.exit_status <$> run) <> Some (Make.status (sh Make.build_command)).
Proof.
  vm_compute. split; [reflexivity|]. split; [reflexivity|].
  split; [reflexivity|]. split; [reflexivity|]. discriminate.
Qed.

(** C10, as stated, fails with a [.env] that sets [COMMAND_LIST]: grep then
    reads the files named there and not the Makefile.  With a name of no
    file, the listing is empty although [build-core] is annotated. *)
Lemma help_lists_nothing_with_another_command_list :
  let dotenv := Some [("COMMAND_LIST", "targets.mk")] in
  let sh := Make.sample_sh 0 [] in
  let run := Make.make sh Make.no_file dotenv Make.enough_fuel ["help"] in
  Make.dotenv_ordinary dotenv = false /\
  Make.documented (Make.read_database dotenv) = [("build-core", "build core")] /\
  (Make.executed <$> run) =
    Some ["grep -E '^[a-zA-Z].*:\s##\s.*$' targets.mk |sed 's/\\//g' |awk 'BEGIN {FS = "
            +:+ Make.dq +:+ ": ## " +:+ Make.dq +:+ "}; {printf "
            +:+ Make.dq +:+ "\033[36m%-30s\033[0m %s\n" +:+ Make.dq
            +:+ ", $1, $2}'"] /\
  (Make.printed <$> run) = Some [] /\
  (Make.printed <$> run) <>
    Some ((fun a => Make.listing_line (fst a) (snd a)) <$>
            Make.documented (Make.read_database dotenv)).
Proof.
  vm_compute. split; [reflexivity|]. split; [reflexivity|].
  split; [reflexivity|]. split; [reflexivity|]. discriminate.
Qed.

(** A run of C7: a [.env] with one definition, the shell of the model. *)
Lemma help_is_the_default_goal_witness :
  let dotenv := Some [("API_KEY", "secret")] in
  Make.enough_fuel <= 300 /\
  Make.dotenv_ordinary dotenv = true /\
  Make.make (Make.sample_sh 0 []) Make.no_file dotenv 300 [] =
    Some {| Make.exit_status := 0;
            Make.printed := [Make.listing_line "build-core" "build core"];
            Make.executed := [Make.help_command];
            Make.final_vars := Make.read_vars dotenv |}.
Proof.
  intros dotenv.
  assert (Make.enough_fuel <= 300) as Hle by (vm_compute; lia).
  assert (Make.dotenv_ordinary dotenv = true) as Hn by reflexivity.
  split; [exact Hle|]. split; [exact Hn|].
  destruct (help_is_the_default_goal (Make.sample_sh 0 []) Make.no_file
              dotenv 300 Hle Hn) as (_ & _ & _ & _ & H).
  apply (H Make.no_files (Make.tools 0 [])). vm_compute. reflexivity.
Defined.

(** A run of C8: [git describe] writes a version. *)
Lemma get_git_tag_only_defines_variables_witness :
  Make.enough_fuel <= 200 /\
  Make.dotenv_ordinary None = true /\
  Make.tag_output
    (Make.stdout (Make.sample_sh 0 ["v0.1.0-dirty"] Make.describe_abbreviated))
    = true /\
  Make.tag_output
    (Make.stdout (Make.sample_sh 0 ["v0.1.0-dirty"] Make.describe_verbose))
    = true /\
  Make.make (Make.sample_sh 0 ["v0.1.0-dirty"]) Make.no_file None 200
    ["get_git_tag"] =
    Some {| Make.exit_status := 0;
            Make.printed := ["make: 'get_git_tag' is up to date."];
            Make.executed := [];
            Make.final_vars :=
              [ ("git_ver_verbose", (Make.Recursive, "v0.1.0-dirty"));
                ("git_ver", (Make.Recursive, "v0.1.0-dirty"));
                ("COMMAND_LIST", (Make.Simple, "Makefile"));
                (".DEFAULT_GOAL", (Make.Simple, "help"));
                ("MAKEFILE_LIST", (Make.Simple, "Makefile")) ] |}.
Proof.
  assert (Make.enough_fuel <= 200) as Hle by (vm_compute; lia).
  assert (Make.tag_output
            (Make.stdout
               (Make.sample_sh 0 ["v0.1.0-dirty"] Make.describe_abbreviated))
          = true) as Hshort by (vm_compute; reflexivity).
  assert (Make.tag_output
            (Make.stdout
               (Make.sample_sh 0 ["v0.1.0-dirty"] Make.describe_verbose))
          = true) as Hlong by (vm_compute; reflexivity).
  split; [exact Hle|]. split; [reflexivity|]. split; [exact Hshort|].
  split; [exact Hlong|].
  destruct (get_git_tag_only_defines_variables
              (Make.sample_sh 0 ["v0.1.0-dirty"]) Make.no_file None 200 Hle
              eq_refl Hshort Hlong)
    as (_ & H & _ & _).
  rewrite H. vm_compute. reflexivity.
Defined.

(** A run of C9: [wasm-pack] succeeds. *)
Lemma build_core_runs_wasm_pack_once_witness :
  Make.enough_fuel <= 200 /\
  Make.dotenv_ordinary None = true /\
  Make.make (Make.sample_sh 0 ["[INFO]: Your wasm pkg is ready"]) Make.no_file
    None 200 ["build-core"] =
    Some {| Make.exit_status := 0;
            Make.printed := ["[INFO]: Your wasm pkg is ready"];
            Make.executed := [Make.build_command];
            Make.final_vars := Make.base_vars |}.
Proof.
  assert (Make.enough_fuel <= 200) as Hle by (vm_compute; lia).
  split; [exact Hle|]. split; [reflexivity|].
  destruct (build_core_runs_wasm_pack_once
              (Make.sample_sh 0 ["[INFO]: Your wasm pkg is ready"])
              Make.no_file None 200 Hle eq_refl) as (_ & _ & _ & H & _).
  rewrite H. vm_compute. reflexivity.
Defined.

(** A run of C10: no [.env]. *)
Lemma help_lists_annotated_targets_witness :
  Make.enough_fuel <= 200 /\
  Make.dotenv_ordinary None = true /\
  Make.posix_sh (Make.repository_files Make.no_files) (Make.tools 0 [])
    Make.help_command = Some (Make.sample_sh 0 [] Make.help_command) /\
  exists o,
    Make.make (Make.sample_sh 0 []) Make.no_file None 200 ["help"] = Some o /\
    Make.printed o = [Make.listing_line "build-core" "build core"].
Proof.
  assert (Make.enough_fuel <= 200) as Hle by (vm_compute; lia).
  assert (Make.posix_sh (Make.repository_files Make.no_files)
            (Make.tools 0 []) Make.help_command =
          Some (Make.sample_sh 0 [] Make.help_command)) as Hsh
    by (vm_compute; reflexivity).
  split; [exact Hle|]. split; [reflexivity|]. split; [exact Hsh|].
  destruct (help_lists_annotated_targets Make.no_files (Make.tools 0 [])
              (Make.sample_sh 0 []) Make.no_file None 200 Hle eq_refl Hsh)
    as (o & _ & Hrun & _ & Hprinted & _).
  exists o. split; [exact Hrun|]. rewrite Hprinted. reflexivity.
Defined.

(* ===================================================================== *)
(** * More about the route component *)
(* ===================================================================== *)

Section GuardMore.
Import Route.

Variable ib : nat -> completion.

#[local] Abbreviation step := (Route.step ib).
#[local] Abbreviation run := (Route.run ib).

(** ** Re-rendering *)

Lemma run_without_renders tr s : run (without_renders tr) s = run tr s.
Proof.
  revert s. induction tr as [|e tr IH]; intros s; [reflexivity|].
  unfold without_renders. rewrite filter_cons.
  destruct e as [|i|i|i]; simpl is_render.
  - rewrite decide_True by reflexivity. rewrite !run_cons. apply IH.
  - rewrite decide_False by discriminate.
    rewrite run_cons, step_Render. apply IH.
  - rewrite decide_True by reflexivity. rewrite !run_cons. apply IH.
  - rewrite decide_True by reflexivity. rewrite !run_cons. apply IH.
Qed.

(** X1.  A re-render of an instance leaves the store as it is and hands
    back the ref object and the dependency array of the first render, so
    the guard does not see re-renders: every trace ends in the store in
    which the trace without its [Render] events ends, with the same
    invocations of every effect. *)
Theorem renders_leave_the_guard_alone tr s :
  (forall i s',
     exists view,
       Index ib (Some i) s' = (Normal view, s') /\
       hook_ref view = i /\
       dependencies (hook_effect view) = [i]) /\
  run (without_renders tr) s = run tr s /\
  (forall i, invocations i (without_renders tr) = invocations i tr).
Proof.
  split; [|split].
  - intros i s'. eexists. split; [reflexivity|]. split; reflexivity.
  - apply run_without_renders.
  - intros i. induction tr as [|e tr IH]; [reflexivity|].
    unfold without_renders. rewrite filter_cons.
    destruct e as [|j|j|j]; simpl is_render.
    + rewrite decide_True by reflexivity.
      rewrite !invocations_cons. f_equal. exact IH.
    + rewrite decide_False by discriminate.
      rewrite invocations_cons, decide_False by discriminate. exact IH.
    + rewrite decide_True by reflexivity.
      rewrite !invocations_cons. f_equal. exact IH.
    + rewrite decide_True by reflexivity.
      rewrite !invocations_cons. f_equal. exact IH.
Qed.

(** ** The calls of one instance, whatever [init()] does *)

Lemma outcomes_of_snoc i s s' j c :
  init_log s' = init_log s ++ [(j, c)] ->
  outcomes_of i s' =
    outcomes_of i s ++ (if decide (j = i) then [c] else []).
Proof.
  intros H. unfold outcomes_of.
  rewrite H, filter_app, fmap_app, filter_cons, filter_nil. simpl.
  destruct (decide (j = i)); reflexivity.
Qed.

Lemma outcomes_of_fresh s :
  well_formed s -> outcomes_of (next_ref s) s = [].
Proof.
  intros [_ Hl]. unfold outcomes_of.
  destruct (filter _ (init_log s)) as [|[j c] l] eqn:E; [reflexivity|exfalso].
  assert ((j, c) ∈ filter (fun e => fst e = next_ref s) (init_log s)) as Hin
    by (rewrite E; left).
  apply list_elem_of_filter in Hin as [Hj Hin]. simpl in Hj. subst j.
  apply Hl in Hin. lia.
Qed.

Lemma log_shape_step s e i :
  well_formed s -> log_shape i s -> log_shape i (step s e).
Proof.
  intros Hwf [k G]. unfold log_shape. destruct e as [|j|j|j].
  - rewrite step_Mount. destruct (decide (i = next_ref s)) as [->|Hne].
    + exists 0. left. unfold outcomes_of. simpl.
      change (snd <$> filter (fun e => fst e = next_ref s) (init_log s))
        with (outcomes_of (next_ref s) s).
      rewrite (outcomes_of_fresh _ Hwf), lookup_insert_eq.
      split; [reflexivity|discriminate].
    + exists k. unfold outcomes_of in *. simpl.
      rewrite lookup_insert_ne by congruence. exact G.
  - rewrite step_Render. exists k. exact G.
  - destruct (cells s !! j) as [[|]|] eqn:E.
    + rewrite (step_Invoke_set _ _ _ E). exists k. exact G.
    + rewrite (step_Invoke_unset _ _ _ E).
      set (s' := {| cells := _ |}).
      assert (init_log s' = init_log s ++ [(j, ib (length (init_log s)))])
        as Hlog by reflexivity.
      setoid_rewrite (outcomes_of_snoc i s s' _ _ Hlog).
      destruct (decide (j = i)) as [->|Hji].
      * destruct G as [[Ho _]|[_ Hc]]; [|congruence].
        subst s'. simpl. destruct (ib (length (init_log s))).
        -- exists k. right. rewrite Ho, lookup_insert_eq.
           split; [reflexivity|discriminate].
        -- exists (S k). left. rewrite Ho. split; [|congruence].
           clear. induction k as [|k IH]; [reflexivity|].
           simpl. f_equal. exact IH.
      * rewrite app_nil_r. exists k.
        assert (cells s' !! i = cells s !! i) as ->; [|exact G].
        subst s'. simpl. destruct (ib _); [|reflexivity].
        apply lookup_insert_ne. exact Hji.
    + rewrite (step_Invoke_unmounted _ _ _ E). exists k. exact G.
  - exists k. unfold outcomes_of in *. simpl.
    destruct (decide (j = i)) as [->|Hji].
    + rewrite lookup_delete_eq.
      destruct G as [[Ho _]|[Ho _]]; [left|right]; (split; [exact Ho|discriminate]).
    + rewrite lookup_delete_ne by exact Hji. exact G.
Qed.

Lemma log_shape_run tr s i :
  well_formed s -> log_shape i s -> log_shape i (run tr s).
Proof.
  revert s. induction tr as [|e tr IH]; intros s Hwf G; [exact G|].
  rewrite run_cons. apply IH; [apply well_formed_step, Hwf|].
  apply log_shape_step; assumption.
Qed.

(** X2.  Whatever [init()] does and however the lifecycle events of the
    page interleave, the calls to [init()] made by an instance are, in
    order, calls that raised followed by at most one call that returned:
    after a call has returned the instance makes no further call.  The flag
    is set only in the second case and unset only in the first. *)
Theorem no_call_after_init_returned tr i :
  let s := run tr empty_store in
  exists k,
    (outcomes_of i s = replicate k Throws /\ cells s !! i <> Some true) \/
    (outcomes_of i s = replicate k Throws ++ [Returns] /\
     cells s !! i <> Some false).
Proof.
  intros s. apply (log_shape_run tr empty_store i well_formed_empty).
  exists 0. left. split; [reflexivity|].
  simpl. rewrite lookup_empty. discriminate.
Qed.

(** ** All instances together *)

Lemma next_ref_mounts tr s :
  next_ref (run tr s) = mounts tr + next_ref s.
Proof.
  revert s. induction tr as [|e tr IH]; intros s; [reflexivity|].
  rewrite run_cons, IH. unfold mounts. rewrite filter_cons.
  destruct e as [|j|j|j].
  - rewrite decide_True by reflexivity. rewrite step_Mount. simpl. lia.
  - rewrite decide_False by discriminate. rewrite step_Render. reflexivity.
  - rewrite decide_False by discriminate.
    destruct (cells s !! j) as [[|]|] eqn:E.
    + rewrite (step_Invoke_set _ _ _ E). reflexivity.
    + rewrite (step_Invoke_unset _ _ _ E). reflexivity.
    + rewrite (step_Invoke_unmounted _ _ _ E). reflexivity.
  - rewrite decide_False by discriminate. reflexivity.
Qed.

Lemma returned_step s e :
  well_formed s ->
  NoDup (returned s) ->
  (forall i, i ∈ returned s -> cells s !! i <> Some false) ->
  NoDup (returned (step s e)) /\
  (forall i, i ∈ returned (step s e) -> cells (step s e) !! i <> Some false).
Proof.
  intros [Hc Hl] Hnd Hset.
  assert (forall i, i ∈ returned s -> i < next_ref s) as Hlt.
  { intros i Hi. unfold returned in Hi.
    apply list_elem_of_fmap in Hi as [[j c] [-> Hin]].
    apply list_elem_of_filter in Hin as [_ Hin]. apply Hl in Hin. exact Hin. }
  destruct e as [|j|j|j].
  - rewrite step_Mount. unfold returned in *. simpl. split; [exact Hnd|].
    intros i Hi. pose proof (Hlt i Hi).
    rewrite lookup_insert_ne by lia. apply Hset, Hi.
  - rewrite step_Render. split; assumption.
  - destruct (cells s !! j) as [[|]|] eqn:E.
    + rewrite (step_Invoke_set _ _ _ E). split; assumption.
    + rewrite (step_Invoke_unset _ _ _ E). unfold returned in *. simpl.
      rewrite filter_app, fmap_app, filter_cons, filter_nil. simpl.
      destruct (ib (length (init_log s))).
      * rewrite decide_True by reflexivity. simpl. split.
        -- apply NoDup_app. split; [exact Hnd|]. split; [|apply NoDup_singleton].
           intros i Hi Hj. apply list_elem_of_singleton in Hj. subst i.
           apply (Hset j Hi). exact E.
        -- intros i Hi. destruct (decide (j = i)) as [->|Hji].
           ++ rewrite lookup_insert_eq. discriminate.
           ++ rewrite lookup_insert_ne by exact Hji.
              apply elem_of_app in Hi as [Hi|Hi]; [apply Hset, Hi|].
              apply list_elem_of_singleton in Hi. congruence.
      * rewrite decide_False by discriminate. simpl. rewrite app_nil_r.
        split; assumption.
    + rewrite (step_Invoke_unmounted _ _ _ E). split; assumption.
  - unfold returned in *. simpl. split; [exact Hnd|].
    intros i Hi. destruct (decide (j = i)) as [->|Hji].
    + rewrite lookup_delete_eq. discriminate.
    + rewrite lookup_delete_ne by exact Hji. apply Hset, Hi.
Qed.

Lemma returned_run tr s :
  well_formed s ->
  NoDup (returned s) ->
  (forall i, i ∈ returned s -> cells s !! i <> Some false) ->
  NoDup (returned (run tr s)).
Proof.
  revert s. induction tr as [|e tr IH]; intros s Hwf Hnd Hset; [exact Hnd|].
  rewrite run_cons.
  destruct (returned_step s e Hwf Hnd Hset) as [Hnd' Hset'].
  apply IH; [apply well_formed_step, Hwf|exact Hnd'|exact Hset'].
Qed.

(** X3.  For the page as a whole, whatever [init()] does: no instance has
    two calls to [init()] that returned, and the number of calls that
    returned never exceeds the number of [Mount] events of the trace. *)
Theorem init_returns_at_most_once_per_mount tr :
  let s := run tr empty_store in
  NoDup (returned s) /\
  length (returned s) <= mounts tr.
Proof.
  intros s.
  assert (NoDup (returned s)) as Hnd.
  { apply returned_run; [apply well_formed_empty|constructor|].
    intros i Hi. simpl in Hi. apply not_elem_of_nil in Hi. contradiction. }
  assert (next_ref s = mounts tr) as Hn
    by (unfold s; rewrite next_ref_mounts; simpl; lia).
  split; [exact Hnd|].
  rewrite <- Hn.
  assert (length (returned s) <= length (seq 0 (next_ref s))) as Hlen;
    [|rewrite length_seq in Hlen; exact Hlen].
  apply submseteq_length, NoDup_submseteq; [exact Hnd|].
  intros i Hi. apply elem_of_seq. split; [lia|]. simpl.
  destruct (well_formed_reachable ib tr) as [_ Hl]. fold s in Hl.
  unfold returned in Hi. apply list_elem_of_fmap in Hi as [[j c] [-> Hin]].
  apply list_elem_of_filter in Hin as [_ Hin]. apply (Hl _ _ Hin).
Qed.

End GuardMore.

(* ===================================================================== *)
(** * More about the Makefile: the [help] pipeline on any file *)
(* ===================================================================== *)

Section HelpStages.
Import Make.

(** ** grep *)

Lemma help_operands :
  lex help_command false None [] =
    [ ["grep"; "-E"; help_pattern; makefile_name];
      ["sed"; help_sed_script];
      ["awk"; help_awk_program] ] /\
  parse_regex help_pattern = Some help_regex.
Proof. split; vm_compute; reflexivity. Qed.

Lemma match_any_to_end s :
  match_len [Many AnyChar; AtEnd] s = Some (String.length s).
Proof.
  induction s as [|c r IH]; [reflexivity|].
  change (match_len [Many AnyChar; AtEnd] (String c r))
    with (match match_len [Many AnyChar; AtEnd] r with
          | Some n => Some (S n)
          | None => match_len [AtEnd] (String c r)
          end).
  rewrite IH. reflexivity.
Qed.

Lemma match_help_tail s :
  match_len help_tail s =
    if annotation_here s then Some (String.length s) else None.
Proof.
  destruct s as [|a [|c1 [|h1 [|h2 [|c2 post]]]]]; simpl;
    try (repeat (destruct (Ascii.eqb _ _) || destruct (Ascii.is_space _));
         reflexivity).
  unfold help_tail. simpl.
  destruct (Ascii.eqb a ":"); [|reflexivity]. simpl.
  destruct (Ascii.is_space c1); [|reflexivity]. simpl.
  destruct (Ascii.eqb h1 "#"); [|reflexivity]. simpl.
  destruct (Ascii.eqb h2 "#"); [|reflexivity]. simpl.
  destruct (Ascii.is_space c2); [|reflexivity]. simpl.
  change ((fix many (s : string) : option nat :=
             match s with
             | String c r =>
                 if accepts AnyChar c
                 then match many r with
                      | Some n => Some (S n)
                      | None => match_len [AtEnd] s
                      end
                 else match_len [AtEnd] s
             | EmptyString => match_len [AtEnd] s
             end) post)
    with (match_len [Many AnyChar; AtEnd] post).
  rewrite match_any_to_end. reflexivity.
Qed.

Lemma match_help_body s :
  is_Some (match_len (Many AnyChar :: help_tail) s) <->
  has_annotation s = true.
Proof.
  induction s as [|c r IH].
  - simpl. split; [intros [n H]; discriminate|discriminate].
  - change (match_len (Many AnyChar :: help_tail) (String c r))
      with (match match_len (Many AnyChar :: help_tail) r with
            | Some n => Some (S n)
            | None => match_len help_tail (String c r)
            end).
    change (has_annotation (String c r))
      with (annotation_here (String c r) || has_annotation r).
    rewrite match_help_tail.
    destruct (match_len (Many AnyChar :: help_tail) r) as [n|] eqn:E.
    + assert (has_annotation r = true) as -> by (apply IH; eauto).
      rewrite orb_true_r. split; eauto.
    + assert (has_annotation r = false) as ->.
      { destruct (has_annotation r); [|reflexivity].
        destruct (proj2 IH eq_refl) as [n Hn]. discriminate. }
      rewrite orb_false_r.
      destruct (annotation_here (String c r)).
      * split; eauto.
      * split; [intros [n H]; discriminate|discriminate].
Qed.

Lemma selects_help line : selects help_regex line = listed line.
Proof.
  unfold selects, help_regex. simpl anchored. simpl pieces.
  destruct line as [|a r]; [reflexivity|].
  change (match_len (One (Bracket false [("a", "z"); ("A", "Z")]%char)
                       :: Many AnyChar :: help_tail) (String a r))
    with (if accepts (Bracket false [("a", "z"); ("A", "Z")]%char) a
          then S <$> match_len (Many AnyChar :: help_tail) r else None).
  unfold listed.
  assert (accepts (Bracket false [("a", "z"); ("A", "Z")]%char) a = is_letter a)
    as ->.
  { unfold accepts, is_letter. simpl. rewrite orb_false_r. reflexivity. }
  assert (bool_decide (is_Some (match_len (Many AnyChar :: help_tail) r)) =
          has_annotation r) as Hbody.
  { destruct (has_annotation r) eqn:H.
    - apply bool_decide_eq_true, match_help_body, H.
    - apply bool_decide_eq_false. intros Hs.
      apply match_help_body in Hs. congruence. }
  rewrite <- Hbody.
  destruct (is_letter a);
    destruct (match_len (Many AnyChar :: help_tail) r) as [n|]; reflexivity.
Qed.

Lemma has_annotation_shape r :
  has_annotation r = true <->
  exists pre c1 c2 post,
    r = pre +:+ String ":" (String c1 (String "#" (String "#" (String c2 post))))
    /\ Ascii.is_space c1 = true /\ Ascii.is_space c2 = true.
Proof.
  split.
  - induction r as [|c r IH]; [discriminate|].
    change (has_annotation (String c r))
      with (annotation_here (String c r) || has_annotation r).
    intros H. apply orb_true_iff in H as [H|H].
    + destruct r as [|c1 [|h1 [|h2 [|c2 post]]]]; try discriminate.
      simpl in H. repeat (apply andb_true_iff in H as [H ?]).
      apply Ascii.eqb_eq in H as ->.
      repeat match goal with
             | E : Ascii.eqb _ _ = true |- _ => apply Ascii.eqb_eq in E as ->
             end.
      exists EmptyString, c1, c2, post. split; [reflexivity|]. split; assumption.
    + destruct (IH H) as (pre & c1 & c2 & post & -> & H1 & H2).
      exists (String c pre), c1, c2, post. split; [reflexivity|].
      split; assumption.
  - intros (pre & c1 & c2 & post & -> & H1 & H2).
    induction pre as [|c pre IH].
    + change (EmptyString +:+ ?x) with x. simpl. rewrite H1, H2. reflexivity.
    + change (String c pre +:+ ?x) with (String c (pre +:+ x)).
      change (has_annotation (String c ?x))
        with (annotation_here (String c x) || has_annotation x).
      rewrite IH. apply orb_true_r.
Qed.

Section Grep.

Variable files : string -> option (list string).

Lemma grep_help_hits (lines : list string) :
  (fun l : string * string => fst l +:+ snd l) <$>
    filter (fun l => selects help_regex (snd l) = true)
           ((fun l : string => (EmptyString, l)) <$> lines) =
  filter (fun l => listed l = true) lines.
Proof.
  induction lines as [|l lines IH]; [reflexivity|].
  rewrite fmap_cons, !filter_cons. simpl snd. rewrite selects_help.
  destruct (decide (listed l = true)) as [H|H].
  - rewrite fmap_cons, IH. reflexivity.
  - exact IH.
Qed.

Lemma text_lines_checked (lines : list string) :
  Forall (fun l => text_line l = true) lines ->
  forallb (fun l : string * string => text_line (snd l))
    (((fun l : string => (EmptyString, l)) <$> lines) ++ []) = true.
Proof.
  intros H. rewrite app_nil_r. induction H as [|l lines Hl _ IH];
    [reflexivity|].
  rewrite fmap_cons. simpl. rewrite Hl, IH. reflexivity.
Qed.

Lemma grep_help_lines name (lines : list string) stdin :
  starts_with "-" name = false ->
  files name = Some lines ->
  Forall (fun l => text_line l = true) lines ->
  grep_E files help_pattern [name] stdin =
    Some {| status := if bool_decide
                           (filter (fun l => listed l = true) lines = [])
                      then 1 else 0;
            stdout := filter (fun l => listed l = true) lines |}.
Proof.
  intros Hname Hfile Htext. unfold grep_E.
  assert (existsb (starts_with "-") [help_pattern; name] = false) as ->.
  { change (existsb (starts_with "-") [help_pattern; name])
      with (starts_with "-" name || false).
    rewrite Hname. reflexivity. }
  destruct help_operands as [_ ->].
  change (Some help_regex ≫= ?f) with (f help_regex). cbv beta.
  unfold grep_input. rewrite Hfile.
  rewrite (text_lines_checked _ Htext), app_nil_r.
  rewrite grep_help_hits. do 2 f_equal.
  rewrite <- grep_help_hits.
  destruct (filter (fun l => selects help_regex (snd l) = true) _);
    reflexivity.
Qed.

(** X4.  What the grep of the [help] recipe selects in a Makefile of text
    (printing characters of ASCII, spaces and tabs): the lines that start
    with a letter and hold, somewhere after it, a colon, a white space
    character, two hash signs and a white space character.  The selected
    lines are written in the order of the file, and the status is 1 when
    there is none.  A line that starts with any other character, a tab for
    one, is never selected. *)
Theorem help_grep_selects_annotated_lines (lines : list string) stdin :
  files makefile_name = Some lines ->
  Forall (fun l => text_line l = true) lines ->
  parse_regex help_pattern = Some help_regex /\
  grep_E files help_pattern [makefile_name] stdin =
    Some {| status := if bool_decide
                           (filter (fun l => listed l = true) lines = [])
                      then 1 else 0;
            stdout := filter (fun l => listed l = true) lines |} /\
  (forall line,
     listed line = true <->
     exists a pre c1 c2 post,
       line = String a (pre +:+ String ":" (String c1 (String "#"
                          (String "#" (String c2 post)))))
       /\ is_letter a = true
       /\ Ascii.is_space c1 = true /\ Ascii.is_space c2 = true) /\
  (forall c rest, is_letter c = false -> listed (String c rest) = false).
Proof.
  intros Hfile Htext. split; [apply help_operands|].
  split; [apply grep_help_lines; [reflexivity|assumption..]|]. split.
  - intros line. split.
    + destruct line as [|a r]; [discriminate|]. simpl. intros H.
      apply andb_true_iff in H as [Ha Hr].
      apply has_annotation_shape in Hr as (pre & c1 & c2 & post & -> & H1 & H2).
      exists a, pre, c1, c2, post. auto.
    + intros (a & pre & c1 & c2 & post & -> & Ha & H1 & H2).
      unfold listed. rewrite Ha. simpl.
      apply has_annotation_shape. eauto 10.
  - intros c rest Hc. unfold listed. rewrite Hc. reflexivity.
Qed.

End Grep.

(** ** sed *)

Lemma substitute_backslash s :
  substitute [One (Lit "\")] EmptyString true 0 s = without "\" s.
Proof.
  induction s as [|c r IH]; [reflexivity|].
  change (substitute [One (Lit "\")] EmptyString true 0 (String c r))
    with (match (if Ascii.eqb c "\" then S <$> Some 0 else None) with
          | Some (S n) =>
              EmptyString +:+ substitute [One (Lit "\")] EmptyString true n r
          | _ => String c (substitute [One (Lit "\")] EmptyString true 0 r)
          end).
  simpl. destruct (Ascii.eqb c "\"); simpl.
  - change (EmptyString +:+ ?x) with x. exact IH.
  - rewrite IH. reflexivity.
Qed.

Lemma free_of_without c s : free_of c (without c s) = true.
Proof.
  induction s as [|a r IH]; [reflexivity|]. simpl.
  destruct (Ascii.eqb a c) eqn:E; [exact IH|]. simpl. rewrite E. exact IH.
Qed.

Lemma without_free c s : free_of c s = true -> without c s = s.
Proof.
  induction s as [|a r IH]; [reflexivity|]. simpl. intros H.
  apply andb_true_iff in H as [Ha Hr]. apply negb_true_iff in Ha.
  rewrite Ha, (IH Hr). reflexivity.
Qed.

Lemma without_app c s t : without c (s +:+ t) = without c s +:+ without c t.
Proof.
  induction s as [|a r IH].
  - reflexivity.
  - change (String a r +:+ t) with (String a (r +:+ t)). simpl.
    destruct (Ascii.eqb a c); [exact IH|].
    change (String a (without c r) +:+ ?x) with (String a (without c r +:+ x)).
    rewrite IH. reflexivity.
Qed.

Lemma free_of_without_other c d s :
  free_of c s = true -> free_of c (without d s) = true.
Proof.
  induction s as [|a r IH]; [reflexivity|]. simpl. intros H.
  apply andb_true_iff in H as [Ha Hr].
  destruct (Ascii.eqb a d); [apply IH, Hr|]. simpl. rewrite Ha. apply IH, Hr.
Qed.

Lemma sed_help (lines : list string) :
  parse_sed help_sed_script = Some help_sed /\
  sed help_sed_script lines =
    {| status := 0; stdout := without "\" <$> lines |}.
Proof.
  assert (parse_sed help_sed_script = Some help_sed) as Hparse
    by (vm_compute; reflexivity).
  split; [exact Hparse|].
  unfold sed. rewrite Hparse. unfold help_sed. f_equal.
  induction lines as [|l lines IH]; [reflexivity|].
  rewrite !fmap_cons, IH. f_equal.
  unfold substitute_line. simpl anchored. simpl pieces.
  apply substitute_backslash.
Qed.

(** X5.  The sed of the [help] recipe, for any input: it succeeds, and
    writes every line without its backslashes and otherwise unchanged.  No
    backslash is left in what it writes, a line without backslash is
    written as it is, and taking the backslashes out of a text is taking
    them out of its parts. *)
Theorem help_sed_deletes_backslashes (lines : list string) :
  parse_sed help_sed_script = Some help_sed /\
  sed help_sed_script lines =
    {| status := 0; stdout := without "\" <$> lines |} /\
  (forall s, free_of "\" (without "\" s) = true) /\
  (forall s, free_of "\" s = true -> without "\" s = s) /\
  (forall s t, without "\" (s +:+ t) = without "\" s +:+ without "\" t).
Proof.
  destruct (sed_help lines) as [Hparse Hsed].
  split; [exact Hparse|]. split; [exact Hsed|]. split; [|split].
  - intros s. apply free_of_without.
  - intros s. apply without_free.
  - intros s t. apply without_app.
Qed.

(** ** awk *)

Lemma free_of_spaces c n : Ascii.eqb " " c = false -> free_of c (spaces n) = true.
Proof.
  intros H. induction n as [|n IH]; [reflexivity|].
  change (free_of c (spaces (S n)))
    with (negb (Ascii.eqb " " c) && free_of c (spaces n)).
  rewrite H, IH. reflexivity.
Qed.

Lemma split_on_free c sep (s : string) skip field :
  free_of c field = true -> free_of c s = true ->
  Forall (fun f => free_of c f = true) (split_on sep skip field s).
Proof.
  revert skip field. induction s as [|a r IH]; intros skip field Hf Hs.
  - simpl. constructor; [|constructor]. rewrite free_of_rev. exact Hf.
  - simpl in Hs. apply andb_true_iff in Hs as [Ha Hr].
    destruct skip as [|k].
    + change (split_on sep 0 field (String a r))
        with (if starts_with sep (String a r)
              then String.rev field ::
                   split_on sep (String.length sep - 1) EmptyString r
              else split_on sep 0 (String a field) r).
      destruct (starts_with sep (String a r)).
      * constructor; [rewrite free_of_rev; exact Hf|]. apply IH; auto.
      * apply IH; [|exact Hr]. simpl. rewrite Ha, Hf. reflexivity.
    + apply IH; assumption.
Qed.

Lemma listing_line_free name description :
  free_of newline name = true -> free_of newline description = true ->
  free_of newline (listing_line name description) = true.
Proof.
  intros Hn Hd. unfold listing_line, pad.
  rewrite !free_of_app, Hn, Hd, free_of_spaces by reflexivity. reflexivity.
Qed.

Lemma awk_entry_free line :
  free_of newline line = true -> free_of newline (awk_entry line) = true.
Proof.
  intros H. unfold awk_entry.
  pose proof (split_on_free newline help_separator line 0 EmptyString
                eq_refl H) as Hfs.
  cbv zeta.
  assert (forall k, free_of newline
            (default EmptyString
               (split_on help_separator 0 EmptyString line !! k)) = true) as Hk.
  { intros k.
    destruct (split_on help_separator 0 EmptyString line !! k) as [f|] eqn:E;
      [|reflexivity].
    simpl. exact (proj1 (Forall_lookup _ _) Hfs k f E). }
  apply listing_line_free; apply Hk.
Qed.

Lemma lines_of_line (t rest acc : string) :
  free_of newline t = true ->
  lines_of acc (t +:+ String newline rest) =
    (String.rev acc +:+ t) :: lines_of EmptyString rest.
Proof.
  revert acc. induction t as [|c t IH]; intros acc H.
  - change (EmptyString +:+ ?x) with x. simpl. rewrite string_app_nil_r.
    reflexivity.
  - simpl in H. apply andb_true_iff in H as [Hc Ht].
    apply negb_true_iff in Hc.
    change (String c t +:+ ?x) with (String c (t +:+ x)).
    change (lines_of acc (String c (t +:+ String newline rest)))
      with (if Ascii.eqb c newline
            then String.rev acc :: lines_of EmptyString (t +:+ String newline rest)
            else lines_of (String c acc) (t +:+ String newline rest)).
    rewrite Hc, (IH _ Ht).
    change (String.rev (String c acc))
      with (String.rev_app acc (String c EmptyString)).
    f_equal.
    pose proof (string_rev_rev_app (String c EmptyString) (String.rev acc)) as E.
    rewrite string_rev_involutive in E.
    assert (String.rev_app acc (String c EmptyString) =
            String.rev acc +:+ String c EmptyString) as ->.
    { rewrite <- (string_rev_involutive acc) at 1.
      change (String.rev_app (String.rev (String.rev acc)) (String c EmptyString))
        with (String.rev_app (String.rev_app (String.rev acc) EmptyString)
                (String c EmptyString)).
      rewrite rev_app_rev_app.
      change (String.rev_app EmptyString ?x) with x. reflexivity. }
    rewrite string_app_assoc. reflexivity.
Qed.

Lemma printf_help (a1 a2 : string) :
  printf (S (String.length (format help_awk))) (format help_awk) [a1; a2] =
    Some (listing_line a1 a2 +:+ String newline EmptyString).
Proof.
  unfold listing_line. rewrite !string_app_assoc. reflexivity.
Qed.

Lemma awk_record_help line :
  awk_record help_awk line = Some (awk_entry line +:+ String newline EmptyString).
Proof.
  destruct line as [|c r]; [vm_compute; reflexivity|].
  unfold awk_record, awk_entry.
  change (fields (separator help_awk) (String c r))
    with (Some (split_on help_separator 0 EmptyString (String c r))).
  exact (printf_help
           (default EmptyString
              (split_on help_separator 0 EmptyString (String c r) !! 0))
           (default EmptyString
              (split_on help_separator 0 EmptyString (String c r) !! 1))).
Qed.

Lemma awk_help_lines (lines : list string) :
  Forall (fun l => free_of newline l = true) lines ->
  exists out,
    awk_records help_awk lines = Some out /\
    lines_of EmptyString out = awk_entry <$> lines.
Proof.
  induction 1 as [|l lines Hl Hrest (out & Hout & Hlines)].
  - exists EmptyString. split; reflexivity.
  - exists ((awk_entry l +:+ String newline EmptyString) +:+ out).
    split.
    + simpl. rewrite awk_record_help. simpl. rewrite Hout. reflexivity.
    + rewrite string_app_assoc.
      change (String newline EmptyString +:+ out) with (String newline out).
      rewrite lines_of_line by (apply awk_entry_free, Hl).
      rewrite Hlines. reflexivity.
Qed.

Lemma awk_help (lines : list string) :
  Forall (fun l => free_of newline l = true) lines ->
  awk help_awk_program lines =
    {| status := 0; stdout := awk_entry <$> lines |}.
Proof.
  intros H. unfold awk.
  assert (parse_awk help_awk_program = Some help_awk) as ->
    by (vm_compute; reflexivity).
  destruct (awk_help_lines lines H) as (out & Hout & Hlines).
  simpl mbind. rewrite Hout, Hlines. reflexivity.
Qed.

(** *** Cutting at the separator *)

Lemma split_on_no_separator sep (s field : string) :
  contains sep s = false ->
  split_on sep 0 field s = [String.rev field +:+ s].
Proof.
  revert field. induction s as [|c r IH]; intros field H.
  - simpl. rewrite string_app_nil_r. reflexivity.
  - change (contains sep (String c r))
      with (starts_with sep (String c r) || contains sep r) in H.
    apply orb_false_iff in H as [Hhere Hrest].
    change (split_on sep 0 field (String c r))
      with (if starts_with sep (String c r)
            then String.rev field ::
                 split_on sep (String.length sep - 1) EmptyString r
            else split_on sep 0 (String c field) r).
    rewrite Hhere, (IH _ Hrest). f_equal.
    change (String.rev (String c field))
      with (String.rev_app field (String c EmptyString)).
    rewrite <- (string_rev_involutive field) at 1.
    change (String.rev_app (String.rev (String.rev field)) (String c EmptyString))
      with (String.rev_app (String.rev_app (String.rev field) EmptyString)
              (String c EmptyString)).
    rewrite rev_app_rev_app.
    change (String.rev_app EmptyString ?x) with x.
    rewrite string_app_assoc. reflexivity.
Qed.

Lemma split_on_first_separator (name rest field : string) :
  free_of ":" name = true ->
  split_on help_separator 0 field (name +:+ help_separator +:+ rest) =
    (String.rev field +:+ name) :: split_on help_separator 0 EmptyString rest.
Proof.
  revert field. induction name as [|c name IH]; intros field H.
  - change (EmptyString +:+ ?x) with x. rewrite string_app_nil_r.
    reflexivity.
  - simpl in H. apply andb_true_iff in H as [Hc Hname].
    apply negb_true_iff in Hc.
    change (String c name +:+ ?x) with (String c (name +:+ x)).
    change (split_on help_separator 0 field (String c ?x))
      with (if starts_with help_separator (String c x)
            then String.rev field ::
                 split_on help_separator (String.length help_separator - 1)
                   EmptyString x
            else split_on help_separator 0 (String c field) x).
    assert (starts_with help_separator
              (String c (name +:+ help_separator +:+ rest)) = false) as ->.
    { change (starts_with help_separator
                (String c (name +:+ help_separator +:+ rest)))
        with (Ascii.eqb ":" c &&
              starts_with " ## " (name +:+ help_separator +:+ rest)).
      rewrite Ascii.eqb_sym, Hc. reflexivity. }
    rewrite (IH _ Hname). f_equal.
    change (String.rev (String c field))
      with (String.rev_app field (String c EmptyString)).
    rewrite <- (string_rev_involutive field) at 1.
    change (String.rev_app (String.rev (String.rev field)) (String c EmptyString))
      with (String.rev_app (String.rev_app (String.rev field) EmptyString)
              (String c EmptyString)).
    rewrite rev_app_rev_app.
    change (String.rev_app EmptyString ?x) with x.
    rewrite string_app_assoc. reflexivity.
Qed.

Lemma length_spaces n : String.length (spaces n) = n.
Proof. induction n as [|n IH]; simpl; congruence. Qed.

Lemma string_length_app (a b : string) :
  String.length (a +:+ b) = String.length a + String.length b.
Proof.
  induction a as [|x a IH]; [reflexivity|].
  change (String x a +:+ b) with (String x (a +:+ b)). simpl.
  rewrite IH. reflexivity.
Qed.

Lemma starts_with_app (a b : string) : starts_with a (a +:+ b) = true.
Proof.
  induction a as [|x a IH]; [reflexivity|].
  change (String x a +:+ b) with (String x (a +:+ b)).
  change (starts_with (String x a) (String x (a +:+ b)))
    with (Ascii.eqb x x && starts_with a (a +:+ b)).
  rewrite Ascii.eqb_refl, IH. reflexivity.
Qed.

Lemma help_entry_annotated name doc :
  free_of ":" name = true ->
  contains help_separator (without "\" doc) = false ->
  help_entry (name +:+ help_separator +:+ doc) =
    listing_line (without "\" name) (without "\" doc).
Proof.
  intros Hname Hdoc. unfold help_entry, awk_entry.
  rewrite !without_app.
  change (without "\" help_separator) with help_separator.
  rewrite split_on_first_separator
    by (apply free_of_without_other, Hname).
  rewrite (split_on_no_separator _ _ _ Hdoc).
  reflexivity.
Qed.

(** X6.  The line of the listing for a line [name: ## description] of the
    Makefile, where the name holds no colon: the name without its
    backslashes in cyan, filled with spaces to 30 columns and never cut,
    then the description without its backslashes.  A description is cut
    where [: ## ] occurs in it again: what follows is not printed. *)
Theorem help_entry_of_annotated_line name doc :
  free_of ":" name = true ->
  contains help_separator (without "\" doc) = false ->
  help_entry (name +:+ help_separator +:+ doc) =
    listing_line (without "\" name) (without "\" doc) /\
  (forall more,
     free_of ":" doc = true ->
     help_entry (name +:+ help_separator +:+ doc +:+ help_separator +:+ more) =
       listing_line (without "\" name) (without "\" doc)) /\
  starts_with (without "\" name) (pad true 30 (without "\" name)) = true /\
  String.length (pad true 30 (without "\" name)) =
    Nat.max 30 (String.length (without "\" name)).
Proof.
  intros Hname Hdoc. split; [apply help_entry_annotated; assumption|]. split.
  - intros more Hcolon. unfold help_entry, awk_entry.
    rewrite !without_app.
    change (without "\" help_separator) with help_separator.
    rewrite split_on_first_separator
      by (apply free_of_without_other, Hname).
    rewrite split_on_first_separator
      by (apply free_of_without_other, Hcolon).
    reflexivity.
  - split.
    + unfold pad. apply starts_with_app.
    + unfold pad. rewrite string_length_app, length_spaces. lia.
Qed.

(** X7.  The pattern of grep takes any white space around the two hash
    signs, the separator of awk is the text [: ## ] with spaces.  So a line
    annotated with tabs is selected, and a selected line in which [: ## ]
    does not occur is printed whole in the column of the names, with an
    empty description. *)
Theorem help_entry_without_separator :
  (forall line,
     contains help_separator (without "\" line) = false ->
     help_entry line = listing_line (without "\" line) EmptyString) /\
  (forall a name doc,
     is_letter a = true ->
     listed (String a (name +:+ ":" +:+ tab +:+ "##" +:+ tab +:+ doc)) = true).
Proof.
  split.
  - intros line H. unfold help_entry, awk_entry.
    rewrite (split_on_no_separator _ _ _ H). reflexivity.
  - intros a name doc Ha. unfold listed. rewrite Ha. simpl.
    apply has_annotation_shape.
    exists name, (ascii_of_nat 9), (ascii_of_nat 9), doc.
    split; [reflexivity|]. split; reflexivity.
Qed.

(** ** The pipeline *)

Section Pipeline.

Variable files : string -> option (list string).
Variable programs : list string -> list string -> sh_result.

Lemma text_line_no_newline l : text_line l = true -> free_of newline l = true.
Proof. intros H. apply (all_chars_free _ _ _ H). reflexivity. Qed.

(** X8.  The command line of the [help] recipe, run by the shell on a
    Makefile of text (printing characters of ASCII, spaces and tabs),
    whatever its lines: the three commands are grep, sed and awk with the
    operands written in the recipe; the pipeline succeeds, also when grep
    selects nothing, and writes one line for each line grep selects, in the
    order of the file: the entry made from it. *)
Theorem help_pipeline_lists_selected_lines (lines : list string) :
  files makefile_name = Some lines ->
  Forall (fun l => text_line l = true) lines ->
  lex help_command false None [] =
    [ ["grep"; "-E"; help_pattern; makefile_name];
      ["sed"; help_sed_script];
      ["awk"; help_awk_program] ] /\
  posix_sh files programs help_command =
    Some {| status := 0;
            stdout := help_entry <$>
                        filter (fun l => listed l = true) lines |}.
Proof.
  intros Hfile Hlines. split; [apply help_operands|].
  unfold posix_sh.
  assert (simple_pipeline help_command false = true) as ->
    by (vm_compute; reflexivity).
  destruct help_operands as [-> _].
  change (run_pipeline files programs _ [])
    with (r ← grep_E files help_pattern [makefile_name] [];
          Some (awk help_awk_program
                  (stdout (sed help_sed_script (stdout r))))).
  rewrite (grep_help_lines files makefile_name lines [] eq_refl Hfile Hlines).
  change (Some ?x ≫= ?f) with (f x). cbv beta.
  change (stdout {| status := _; stdout := ?x |}) with x.
  destruct (sed_help (filter (fun l => listed l = true) lines)) as [_ ->].
  change (stdout {| status := _; stdout := ?x |}) with x.
  rewrite awk_help.
  - rewrite <- list_fmap_compose. reflexivity.
  - apply Forall_fmap, Forall_forall. intros l Hl.
    apply list_elem_of_filter in Hl as [_ Hl]. simpl.
    apply free_of_without_other, text_line_no_newline.
    exact (proj1 (Forall_forall _ _) Hlines l Hl).
Qed.

End Pipeline.

End HelpStages.

(* ===================================================================== *)
(** * More about the Makefile: [.env], the tag and several goals *)
(* ===================================================================== *)

Section MakeMore.
Import Make.

Variable sh : string -> sh_result.
Variable file_exists : string -> bool.

(** ** What [.env] defines *)

(** X9.  [COMMAND_LIST] is set, with [:=], before [.env] is included.  So
    with a [.env] of ordinary definitions only, make lists both files
    in [MAKEFILE_LIST], but [COMMAND_LIST] names the Makefile only: the
    command line of [help] is the same as without [.env], and [.env] is
    not among the files grep reads. *)
Theorem help_searches_only_the_makefile fuel defs :
  enough_fuel <= fuel ->
  dotenv_ordinary (Some defs) = true ->
  read_makefile sh file_exists (Some defs) fuel text =
    Some (read_database (Some defs)) /\
  lookup_var "MAKEFILE_LIST" (read_vars (Some defs)) =
    Some (Simple, "Makefile .env") /\
  lookup_var "COMMAND_LIST" (read_vars (Some defs)) =
    Some (Simple, "Makefile") /\
  executed <$> make sh file_exists (Some defs) fuel ["help"] =
    Some [help_command] /\
  executed <$> make sh file_exists (Some defs) fuel ["help"] =
    executed <$> make sh file_exists None fuel ["help"] /\
  contains ".env" help_command = false.
Proof.
  intros Hle Hordinary.
  destruct (lookup_read_vars (Some defs) Hordinary) as (_ & Hc & Hm).
  split; [apply read_makefile_text;
          [exact Hle|apply supported_of_ordinary, Hordinary]|].
  split; [exact Hm|]. split; [exact Hc|].
  rewrite (make_help_run sh file_exists (Some defs) fuel ["help"] Hle Hordinary)
    by (right; reflexivity).
  rewrite (make_help_run sh file_exists None fuel ["help"] Hle eq_refl)
    by (right; reflexivity).
  split; [reflexivity|]. split; [reflexivity|].
  vm_compute. reflexivity.
Qed.

(** X10.  Every definition of a [.env] the model reads is in force after
    reading, as a recursively expanded variable; of several definitions of
    one name the last one counts, and a definition of [.env] replaces one
    the Makefile made before the include.  So a [.env] that sets
    [.DEFAULT_GOAL] to one of the targets of the Makefile decides what
    [make] without arguments does. *)
Theorem dotenv_definitions_take_effect fuel defs :
  enough_fuel <= fuel ->
  dotenv_supported (Some defs) = true ->
  read_makefile sh file_exists (Some defs) fuel text =
    Some (read_database (Some defs)) /\
  (forall name,
     lookup_var name (vars (read_database (Some defs))) =
       match last_definition name defs with
       | Some v => Some (Recursive, v)
       | None =>
           lookup_var name
             (define "MAKEFILE_LIST" Simple "Makefile .env" base_vars)
       end) /\
  (forall g,
     last_definition ".DEFAULT_GOAL" defs = Some g ->
     g ∈ target <$> read_rules ->
     default_goal sh file_exists (Some defs) fuel (read_database (Some defs)) =
       Some g /\
     make sh file_exists (Some defs) fuel [] =
       make sh file_exists (Some defs) fuel [g]).
Proof.
  intros Hle Hs.
  assert (forall name,
     lookup_var name (vars (read_database (Some defs))) =
       match last_definition name defs with
       | Some v => Some (Recursive, v)
       | None =>
           lookup_var name
             (define "MAKEFILE_LIST" Simple "Makefile .env" base_vars)
       end) as Hlookup.
  { intros name. apply lookup_var_last_definition. }
  split; [apply read_makefile_text; assumption|]. split; [exact Hlookup|].
  intros g Hlast Htarget.
  assert (dollar_free g = true /\ String.length g < fuel /\
          String.words g = [g]) as (Hplain & Hfuel & Hwords).
  { unfold enough_fuel in Hle.
    apply elem_of_cons in Htarget as [->|Htarget];
      [split; [reflexivity|]; split; [simpl; lia|vm_compute; reflexivity]|].
    apply elem_of_cons in Htarget as [->|Htarget];
      [split; [reflexivity|]; split; [simpl; lia|vm_compute; reflexivity]|].
    apply elem_of_cons in Htarget as [->|Htarget];
      [split; [reflexivity|]; split; [simpl; lia|vm_compute; reflexivity]|].
    apply elem_of_nil in Htarget. contradiction. }
  assert (default_goal sh file_exists (Some defs) fuel
            (read_database (Some defs)) = Some g) as Hgoal.
  { unfold default_goal. rewrite Hlookup, Hlast.
    rewrite (expand_plain _ _ _ _ _ _ Hplain Hfuel). simpl.
    rewrite Hwords. reflexivity. }
  split; [exact Hgoal|].
  unfold make. rewrite (read_makefile_text _ _ _ _ Hle Hs).
  change (Some ?x ≫= ?f) with (f x). cbv beta.
  unfold goals_of. rewrite Hgoal. reflexivity.
Qed.

(** ** The value of [git_ver] *)

(** X11.  [make get_git_tag], when no file [get_git_tag] exists and with no
    [.env] or one of ordinary definitions only, succeeds whatever git
    does, and sets each of the two variables from what its command wrote: a
    single line of version text (printing characters other than the space,
    the hash sign, the dollar sign and the backslash) is the value as it
    is; when such text is followed by a hash sign, the text from the hash
    sign on is not part of the value; and when the command writes nothing,
    as git does when it fails, the value is empty. *)
Theorem git_ver_is_the_tag_up_to_a_hash dotenv fuel :
  enough_fuel <= fuel ->
  dotenv_ordinary dotenv = true ->
  file_exists "get_git_tag" = false ->
  exists o,
    make sh file_exists dotenv fuel ["get_git_tag"] = Some o /\
    exit_status o = make_ok /\
    forall name command,
      (name, command) ∈ [ ("git_ver", describe_abbreviated);
                          ("git_ver_verbose", describe_verbose) ] ->
      (forall w,
         stdout (sh command) = [w] -> tag_text w = true ->
         lookup_var name (final_vars o) = Some (Recursive, w)) /\
      (forall a rest,
         stdout (sh command) = [a +:+ String "#" rest] ->
         tag_text a = true -> free_of carriage_return rest = true ->
         lookup_var name (final_vars o) = Some (Recursive, a)) /\
      (stdout (sh command) = [] ->
       lookup_var name (final_vars o) = Some (Recursive, EmptyString)).
Proof.
  intros Hle Hordinary Hfile. eexists.
  split; [apply make_tag_run;
          [exact Hle|apply supported_of_ordinary, Hordinary]|].
  rewrite Hfile. split; [reflexivity|].
  intros name command Hin.
  assert (lookup_var name
            (define "git_ver_verbose" Recursive
               (value_text (String " " (shell_function sh describe_verbose)))
               (define "git_ver" Recursive
                  (value_text
                     (String " " (shell_function sh describe_abbreviated)))
                  (read_vars dotenv))) =
          Some (Recursive, value_text (String " " (shell_function sh command))))
    as Hvalue.
  { apply elem_of_cons in Hin as [Hin|Hin].
    - injection Hin as -> ->. reflexivity.
    - apply elem_of_cons in Hin as [Hin|Hin].
      + injection Hin as -> ->. reflexivity.
      + apply elem_of_nil in Hin. contradiction. }
  simpl final_vars. rewrite Hvalue.
  split; [|split].
  - intros w Hout Hw.
    rewrite (shell_function_line sh _ _ Hout)
      by (apply (tag_text_free _ _ Hw); reflexivity).
    rewrite (value_text_tag _ Hw). reflexivity.
  - intros a rest Hout Ha Hrest.
    rewrite (shell_function_line sh _ _ Hout).
    + rewrite (value_text_hash _ _ Ha). reflexivity.
    + rewrite free_of_app. simpl.
      rewrite (tag_text_free _ _ Ha) by reflexivity. exact Hrest.
  - intros Hout. unfold shell_function. rewrite Hout. reflexivity.
Qed.

(** ** Several goals *)

Lemma update_goals_cons dotenv fuel d g rest o :
  update_goals sh file_exists dotenv fuel d (g :: rest) o =
    update_goals sh file_exists dotenv fuel d [g] o ≫=
      (fun o' => if Nat.eqb (exit_status o') make_ok
                 then update_goals sh file_exists dotenv fuel d rest o'
                 else Some o').
Proof.
  simpl. destruct (update sh file_exists dotenv fuel d g o) as [o'|];
    [|reflexivity].
  simpl. destruct (Nat.eqb (exit_status o') make_ok) eqn:E; simpl;
    rewrite E; reflexivity.
Qed.

(** X12.  [make build-core help], with no [.env] or one of ordinary
    definitions only: the goals are made in the order given.  When
    wasm-pack fails, make stops there: the listing is not printed and its
    pipeline is not run.  When wasm-pack succeeds, the pipeline of [help]
    is run after it, what both wrote is printed in that order, and the exit
    status is that of the listing. *)
Theorem build_then_help_stops_at_failure dotenv fuel :
  enough_fuel <= fuel ->
  dotenv_ordinary dotenv = true ->
  make sh file_exists dotenv fuel ["build-core"; "help"] =
    Some (if status (sh build_command) =? 0 then
            {| exit_status := if status (sh help_command) =? 0 then make_ok
                              else make_failed;
               printed := stdout (sh build_command) ++ stdout (sh help_command);
               executed := [build_command; help_command];
               final_vars := read_vars dotenv |}
          else
            {| exit_status := make_failed;
               printed := stdout (sh build_command);
               executed := [build_command];
               final_vars := read_vars dotenv |}).
Proof.
  intros Hle Hordinary.
  destruct (lookup_read_vars dotenv Hordinary) as (_ & Hlist & _).
  rewrite (make_goals sh file_exists dotenv fuel "build-core" ["help"] Hle
             (supported_of_ordinary dotenv Hordinary)).
  rewrite update_goals_cons.
  rewrite (update_single sh file_exists dotenv fuel (read_database dotenv)
             "build-core" build_rule build_command
             (started (read_vars dotenv)) (read_vars dotenv));
    [|reflexivity|reflexivity|reflexivity
     |apply (expand_recipe_mono sh file_exists dotenv enough_fuel fuel _ _ _ Hle);
      vm_compute; reflexivity
     |discriminate|reflexivity].
  change (Some ?x ≫= ?f) with (f x). cbv beta.
  change (exit_status {| exit_status := ?e; printed := _; executed := _;
                         final_vars := _ |}) with e.
  change (exit_status (started (read_vars dotenv))) with make_ok.
  destruct (status (sh build_command) =? 0) eqn:Hbuild.
  - change (make_ok =? make_ok) with true. cbv iota.
    rewrite (update_single sh file_exists dotenv fuel (read_database dotenv)
               "help" help_rule help_command _ (read_vars dotenv));
      [|reflexivity|reflexivity|reflexivity
       |apply (expand_help_recipe sh file_exists dotenv fuel _ Hle Hlist)
       |discriminate|reflexivity].
    reflexivity.
  - reflexivity.
Qed.

End MakeMore.

(* ===================================================================== *)
(** * Concrete runs of the further properties *)
(* ===================================================================== *)

(** A run of X4: grep on the Makefile of the repository. *)
Lemma help_grep_selects_annotated_lines_witness :
  Make.repository_files Make.no_files Make.makefile_name = Some Make.text /\
  Forall (fun l => Make.text_line l = true) Make.text /\
  Make.grep_E (Make.repository_files Make.no_files) Make.help_pattern
    [Make.makefile_name] [] =
    Some {| Make.status := 0;
            Make.stdout := ["build-core: ## build core"] |}.
Proof.
  assert (Forall (fun l => Make.text_line l = true) Make.text) as Htext
    by (repeat (constructor; [vm_compute; reflexivity|]); constructor).
  split; [reflexivity|]. split; [exact Htext|].
  destruct (help_grep_selects_annotated_lines
              (Make.repository_files Make.no_files)
              Make.text [] eq_refl Htext) as (_ & H & _).
  rewrite H. vm_compute. reflexivity.
Defined.

(** A run of X5: one line with a backslash, one without. *)
Lemma help_sed_deletes_backslashes_witness :
  Make.free_of "\" "plain" = true /\
  Make.without "\" "plain" = "plain" /\
  Make.sed Make.help_sed_script ["a\b"; "plain"] =
    {| Make.status := 0; Make.stdout := ["ab"; "plain"] |}.
Proof.
  destruct (help_sed_deletes_backslashes ["a\b"; "plain"])
    as (_ & Hsed & _ & Hfree & _).
  split; [reflexivity|]. split; [apply Hfree; reflexivity|].
  rewrite Hsed. reflexivity.
Defined.

(** A run of X6: the annotated line of the Makefile, and the same line with
    a second separator. *)
Lemma help_entry_of_annotated_line_witness :
  Make.free_of ":" "build-core" = true /\
  Make.contains Make.help_separator (Make.without "\" "build core") = false /\
  Make.free_of ":" "build core" = true /\
  Make.help_entry ("build-core" +:+ Make.help_separator +:+ "build core") =
    Make.listing_line "build-core" "build core" /\
  Make.help_entry ("build-core" +:+ Make.help_separator +:+ "build core"
                   +:+ Make.help_separator +:+ "with wasm-pack") =
    Make.listing_line "build-core" "build core".
Proof.
  destruct (help_entry_of_annotated_line "build-core" "build core"
              eq_refl eq_refl) as (H1 & H2 & _).
  split; [reflexivity|]. split; [reflexivity|]. split; [reflexivity|].
  split; [exact H1|]. exact (H2 "with wasm-pack" eq_refl).
Defined.

(** A run of X7: a target annotated with tabs. *)
Lemma help_entry_without_separator_witness :
  let line := "run:" +:+ Make.tab +:+ "##" +:+ Make.tab +:+ "start" in
  Make.contains Make.help_separator (Make.without "\" line) = false /\
  Make.is_letter "r" = true /\
  Make.listed line = true /\
  Make.help_entry line = Make.listing_line line EmptyString.
Proof.
  intros line.
  destruct help_entry_without_separator as (H1 & H2).
  split; [reflexivity|]. split; [reflexivity|].
  split; [exact (H2 "r"%char "un" "start" eq_refl)|].
  exact (H1 line eq_refl).
Defined.

(** A run of X8: the pipeline on the Makefile of the repository. *)
Lemma help_pipeline_lists_selected_lines_witness :
  Make.repository_files Make.no_files Make.makefile_name = Some Make.text /\
  Forall (fun l => Make.text_line l = true) Make.text /\
  Make.posix_sh (Make.repository_files Make.no_files) (Make.tools 1 [])
    Make.help_command =
    Some {| Make.status := 0;
            Make.stdout := [Make.listing_line "build-core" "build core"] |}.
Proof.
  assert (Forall (fun l => Make.text_line l = true) Make.text) as Hlines
    by (repeat (constructor; [vm_compute; reflexivity|]); constructor).
  split; [reflexivity|]. split; [exact Hlines|].
  destruct (help_pipeline_lists_selected_lines
              (Make.repository_files Make.no_files) (Make.tools 1 [])
              Make.text eq_refl Hlines) as (_ & H).
  rewrite H. vm_compute. reflexivity.
Defined.

(** A run of X9: a [.env] with one definition. *)
Lemma help_searches_only_the_makefile_witness :
  let defs := [("API_KEY", "secret")] in
  Make.enough_fuel <= 300 /\
  Make.dotenv_ordinary (Some defs) = true /\
  Make.lookup_var "MAKEFILE_LIST" (Make.read_vars (Some defs)) =
    Some (Make.Simple, "Makefile .env") /\
  Make.executed <$>
    Make.make (Make.sample_sh 0 []) Make.no_file (Some defs) 300 ["help"] =
    Some [Make.help_command].
Proof.
  intros defs.
  assert (Make.enough_fuel <= 300) as Hle by (vm_compute; lia).
  split; [exact Hle|]. split; [reflexivity|].
  destruct (help_searches_only_the_makefile (Make.sample_sh 0 [])
              Make.no_file 300 defs Hle eq_refl)
    as (_ & H1 & _ & H2 & _).
  split; [exact H1|exact H2].
Defined.

(** A run of X10: a [.env] that sets the default goal twice. *)
Lemma dotenv_definitions_take_effect_witness :
  let defs := [(".DEFAULT_GOAL", "help"); (".DEFAULT_GOAL", "build-core")] in
  Make.enough_fuel <= 300 /\
  Make.dotenv_supported (Some defs) = true /\
  Make.last_definition ".DEFAULT_GOAL" defs = Some "build-core" /\
  "build-core" ∈ Make.target <$> Make.read_rules /\
  Make.make (Make.sample_sh 0 []) Make.no_file (Some defs) 300 [] =
    Make.make (Make.sample_sh 0 []) Make.no_file (Some defs) 300
      ["build-core"].
Proof.
  intros defs.
  assert (Make.enough_fuel <= 300) as Hle by (vm_compute; lia).
  assert ("build-core" ∈ Make.target <$> Make.read_rules) as Hin
    by (apply elem_of_cons; right; apply elem_of_cons; right;
        apply elem_of_cons; left; reflexivity).
  split; [exact Hle|]. split; [reflexivity|]. split; [reflexivity|].
  split; [exact Hin|].
  destruct (dotenv_definitions_take_effect (Make.sample_sh 0 [])
              Make.no_file 300 defs Hle eq_refl) as (_ & _ & H).
  exact (proj2 (H "build-core" eq_refl Hin)).
Defined.

(** A run of X11: [git describe] writes a version. *)
Lemma git_ver_is_the_tag_up_to_a_hash_witness :
  Make.enough_fuel <= 300 /\
  Make.dotenv_ordinary None = true /\
  Make.no_file "get_git_tag" = false /\
  Make.stdout (Make.sample_sh 0 ["v1.2.0"] Make.describe_abbreviated) =
    ["v1.2.0"] /\
  Make.tag_text "v1.2.0" = true /\
  exists o,
    Make.make (Make.sample_sh 0 ["v1.2.0"]) Make.no_file None 300
      ["get_git_tag"] = Some o /\
    Make.lookup_var "git_ver" (Make.final_vars o) =
      Some (Make.Recursive, "v1.2.0").
Proof.
  assert (Make.enough_fuel <= 300) as Hle by (vm_compute; lia).
  assert (Make.stdout (Make.sample_sh 0 ["v1.2.0"] Make.describe_abbreviated)
          = ["v1.2.0"]) as Hout by (vm_compute; reflexivity).
  split; [exact Hle|]. split; [reflexivity|]. split; [reflexivity|].
  split; [exact Hout|]. split; [reflexivity|].
  destruct (git_ver_is_the_tag_up_to_a_hash (Make.sample_sh 0 ["v1.2.0"])
              Make.no_file None 300 Hle eq_refl eq_refl)
    as (o & Hmake & _ & H).
  exists o. split; [exact Hmake|].
  destruct (H "git_ver" Make.describe_abbreviated) as (Hplain & _).
  - apply elem_of_cons. left. reflexivity.
  - apply Hplain; [exact Hout|reflexivity].
Defined.

(** A run of X12: every program fails. *)
Lemma build_then_help_stops_at_failure_witness :
  Make.enough_fuel <= 300 /\
  Make.dotenv_ordinary None = true /\
  Make.make (Make.sample_sh 1 []) Make.no_file None 300
    ["build-core"; "help"] =
    Some {| Make.exit_status := Make.make_failed;
            Make.printed := [];
            Make.executed := [Make.build_command];
            Make.final_vars := Make.read_vars None |}.
Proof.
  assert (Make.enough_fuel <= 300) as Hle by (vm_compute; lia).
  split; [exact Hle|]. split; [reflexivity|].
  rewrite (build_then_help_stops_at_failure (Make.sample_sh 1 [])
             Make.no_file None 300 Hle eq_refl).
  vm_compute. reflexivity.
Defined.
